(** * Event-stream batch collation ([event_stream_collate_fn])

    A shallow embedding of the collation routine of
    [tutorial_inference.ipynb] and of the NumPy / Python primitives it
    calls, followed by the properties the specification states about it.
    The dataset constructors that configure the routine and the chunked
    inference loop of the online tutorial are embedded after it, with
    further properties of all three.

    Modelling conventions.
    - A structured event array is a list of [event] records; the column
      [e['t']] is [col ev_t e], and all columns of one array share its
      length.  The field [ev_y] is only read on the two-dimensional path.
    - Integer data are [Z].  An explicit [.astype(np.int32)] is the
      two's-complement wrap [astype_int32].  Array lengths and the
      arithmetic on them are exact: lengths stay far below [2^31].
    - [timesteps / 1000] is NumPy true division; its result is modelled
      as the exact rational [d # 1000] and compared with [==] on [Q]
      (binary rounding of the quotient is not part of the model).
    - Python exceptions are values of [exn]; a call that raises returns
      [Raise e], and [x <- c ;; k] propagates it.
    - A batch element is a Python tuple whose two leading components are
      the event array and the label; [aux] holds whatever components
      follow (none for a pair). *)

From Stdlib Require Import String ZArith QArith List Bool Lia.
From Stdlib Require Import Sorted Permutation.
Import ListNotations.
Open Scope Z_scope.

(** ** Python exceptions as an error monad *)

Module Py.

Inductive exn : Type :=
| ValueError (msg : string)
| AssertionError.

Inductive result (A : Type) : Type :=
| Ok (a : A)
| Raise (e : exn).

Arguments Ok {A} a.
Arguments Raise {A} e.

Definition bind {A B : Type} (c : result A) (k : A -> result B) : result B :=
  match c with
  | Ok a => k a
  | Raise e => Raise e
  end.

(** [assert cond] *)
Definition py_assert (cond : bool) : result unit :=
  if cond then Ok tt else Raise AssertionError.

(** A list comprehension whose body may raise: the first exception wins. *)
Fixpoint mapM {A B : Type} (f : A -> result B) (l : list A) : result (list B) :=
  match l with
  | [] => Ok []
  | a :: l' =>
      bind (f a) (fun b => bind (mapM f l') (fun bs => Ok (b :: bs)))
  end.

(** The columns that [zip( *rows )] yields for the rows [first :: rest]:
    [zip] stops as soon as one row is exhausted. *)
Definition heads {A : Type} (rows : list (list A)) : option (list A) :=
  fold_right
    (fun r acc =>
       match r, acc with
       | a :: _, Some hs => Some (a :: hs)
       | _, _ => None
       end)
    (Some []) rows.

Fixpoint zip_star {A : Type} (first : list A) (rest : list (list A))
  : list (list A) :=
  match first with
  | [] => []
  | a :: first' =>
      match heads rest with
      | Some hs => (a :: hs) :: zip_star first' (map (@tl A) rest)
      | None => []
      end
  end.

End Py.

Export Py.

Declare Scope py_scope.
Notation "x <- c ;; k" := (bind c (fun x => k))
  (at level 61, c at next level, right associativity) : py_scope.
Notation "' pat <- c ;; k" := (bind c (fun x => match x with pat => k end))
  (at level 61, pat pattern, c at next level, right associativity) : py_scope.
Open Scope py_scope.

(** ** The NumPy primitives the routine uses *)

Module Np.

(** [.astype(np.int32)]: keep the low 32 bits, read as two's complement. *)
Definition astype_int32 (z : Z) : Z := (z + 2 ^ 31) mod 2 ^ 32 - 2 ^ 31.

(** [np.prod] of a tuple of integers. *)
Definition prod (r : list Z) : Z := fold_right Z.mul 1 r.

(** [np.diff(a)], that is [a[1:] - a[:-1]]. *)
Fixpoint diff (a : list Z) : list Z :=
  match a with
  | a0 :: (a1 :: _) as rest => (a1 - a0) :: diff rest
  | _ => []
  end.

(** [np.ones_like(a)] on an integer array. *)
Definition ones_like (a : list Z) : list Z := map (fun _ => 1) a.

(** [a.max()]; NumPy raises on an array of size zero. *)
Definition max (a : list Z) : result Z :=
  match a with
  | [] => Raise (ValueError "zero-size array to reduction operation maximum which has no identity")
  | a0 :: a' => Ok (fold_left Z.max a' a0)
  end.

(** [np.pad(e, (0, n), mode='constant', constant_values=c)]. *)
Definition pad {A : Type} (e : list A) (n : Z) (c : A) : result (list A) :=
  if n <? 0 then Raise (ValueError "index can't contain negative values")
  else Ok (e ++ repeat c (Z.to_nat n)).

(** [np.stack] of one-dimensional arrays: they must all have one shape. *)
Definition stack {A : Type} (arrays : list (list A)) : result (list (list A)) :=
  match arrays with
  | [] => Raise (ValueError "need at least one array to stack")
  | a :: rest =>
      if forallb (fun r => Nat.eqb (length r) (length a)) rest
      then Ok arrays
      else Raise (ValueError "all input arrays must have the same shape")
  end.

(** [np.stack] of scalars, which gives a one-dimensional array. *)
Definition stack_scalars (values : list Z) : result (list Z) :=
  match values with
  | [] => Raise (ValueError "need at least one array to stack")
  | _ :: _ => Ok values
  end.

(** Integer arrays of one or two dimensions, and their [shape]. *)
Inductive int_array : Type :=
| Arr1 (v : list Z)
| Arr2 (rows : list (list Z)).

Definition shape (a : int_array) : list nat :=
  match a with
  | Arr1 v => [length v]
  | Arr2 rows => [length rows; length (hd [] rows)]
  end.

(** The entries of an array in row-major order. *)
Definition ravel (a : int_array) : list Z :=
  match a with
  | Arr1 v => v
  | Arr2 rows => concat rows
  end.

(** [a[None, ...]] on a one-dimensional array. *)
Definition expand_leading (v : list Z) : int_array := Arr2 [v].

End Np.

(** ** Data model *)

Record event : Type := mk_event { ev_t : Z; ev_x : Z; ev_y : Z; ev_p : Z }.

Definition sample : Type := list event.

(** The column [e[name]] of a structured array. *)
Definition col (f : event -> Z) (e : sample) : list Z := map f e.

Record item : Type := mk_item { events : sample; label : Z; aux : list Z }.

(** The tuple [(tokens, y, timesteps, lengths)] the routine returns. *)
Record collated : Type := mk_collated {
  tokens : list (list Z);
  labels : list Z;
  timesteps : list (list Q);
  lengths : Np.int_array
}.

(** ** The routine *)

(** [x, y, *z = zip( *batch )] *)
Definition unpack_batch (batch : list item)
  : result (list sample * list Z * list (list Z)) :=
  match batch with
  | [] => Raise (ValueError "not enough values to unpack (expected at least 2, got 0)")
  | b :: bs => Ok (map events batch, map label batch, zip_star (aux b) (map aux bs))
  end.

(** [e['x'][:-1].astype(np.int32)] *)
Definition tokens_1d (e : sample) : list Z :=
  map Np.astype_int32 (removelast (col ev_x e)).

(** [(e['x'][:-1] * e['y'][:-1]
      + np.prod(resolution) * e['p'][:-1].astype(np.int32)).astype(np.int32)],
    element by element. *)
Definition token_2d (resolution : list Z) (ev : event) : Z :=
  Np.astype_int32
    (ev_x ev * ev_y ev + Np.prod resolution * Np.astype_int32 (ev_p ev)).

Definition tokens_2d (resolution : list Z) (e : sample) : list Z :=
  map (token_2d resolution) (removelast e).

(** The integration time steps of one sample, before rescaling. *)
Definition raw_timesteps (no_time_information : bool) (e : sample) : list Z :=
  if no_time_information then Np.ones_like (removelast (col ev_t e))
  else Np.diff (col ev_t e).

Definition len {A : Type} (l : list A) : Z := Z.of_nat (length l).

(** [d / 1000], NumPy true division of an integer entry. *)
Definition div1000 (d : Z) : Q := d # 1000.

(** [(lengths.max() // pad_unit) * pad_unit + pad_unit] *)
Definition pad_length (max_len pad_unit : Z) : Z :=
  (max_len / pad_unit) * pad_unit + pad_unit.

(** [np.stack([np.pad(e, (0, pad_length - len(e)), constant_values=c) for e in arrays])] *)
Definition pad_and_stack {A : Type} (pad_len : Z) (c : A)
  (arrays : list (list A)) : result (list (list A)) :=
  padded <- mapM (fun e => Np.pad e (pad_len - len e) c) arrays ;;
  Np.stack padded.

Definition event_stream_collate_fn (batch : list item) (resolution : list Z)
  (pad_unit : Z) (no_time_information : bool) : result collated :=
  ' (x, y, z) <- unpack_batch batch ;;
  _ <- py_assert (Nat.eqb (length z) 0) ;;
  let batch_size_one := Nat.eqb (length x) 1 in
  y <- Np.stack_scalars y ;;
  let timesteps := map (raw_timesteps no_time_information) x in
  tokens <- match length resolution with
            | 1%nat => Ok (map tokens_1d x)
            | 2%nat => Ok (map (tokens_2d resolution) x)
            | _ => Raise (ValueError "resolution must contain 1 or 2 elements")
            end ;;
  let lengths := map len timesteps in
  max_len <- Np.max lengths ;;
  let pad_length := pad_length max_len pad_unit in
  tokens <- pad_and_stack pad_length (-1) tokens ;;
  timesteps <- pad_and_stack pad_length 0 timesteps ;;
  let timesteps := map (map div1000) timesteps in
  let lengths := if batch_size_one then Np.expand_leading lengths
                 else Np.Arr1 lengths in
  Ok (mk_collated tokens y timesteps lengths).

(** ** Notions used in the statements *)

(** The row [np.pad] builds when the pad width is not negative. *)
Definition pad_row {A : Type} (pad_len : Z) (c : A) (e : list A) : list A :=
  e ++ repeat c (Z.to_nat (pad_len - len e)).

Definition sample_tokens (resolution : list Z) (e : sample) : list Z :=
  if Nat.eqb (length resolution) 1 then tokens_1d e else tokens_2d resolution e.

Definition sample_lengths (no_time_information : bool) (batch : list item)
  : list Z :=
  map (fun b => len (raw_timesteps no_time_information (events b))) batch.

Definition collate_result (batch : list item) (resolution : list Z)
  (pad_unit : Z) (no_time_information : bool) (max_len : Z) : collated :=
  let P := pad_length max_len pad_unit in
  mk_collated
    (map (fun b => pad_row P (-1) (sample_tokens resolution (events b))) batch)
    (map label batch)
    (map (fun b =>
            map div1000 (pad_row P 0 (raw_timesteps no_time_information (events b))))
         batch)
    (if Nat.eqb (length batch) 1
     then Np.expand_leading (sample_lengths no_time_information batch)
     else Np.Arr1 (sample_lengths no_time_information batch)).

(** The conditions under which the routine returns. *)
Definition returns (batch : list item) (resolution : list Z) (pad_unit : Z)
  (no_time_information : bool) (max_len : Z) : Prop :=
  Exists (fun b => aux b = []) batch /\
  (length resolution = 1 \/ length resolution = 2)%nat /\
  Np.max (sample_lengths no_time_information batch) = Ok max_len /\
  Forall (fun b => len (raw_timesteps no_time_information (events b))
                   <= pad_length max_len pad_unit) batch.

(** The ceiling of [a / b] and the pad length the specification's formula
    [ceil(max_len / pad_unit) * pad_unit] denotes. *)
Definition ceil_div (a b : Z) : Z := - ((- a) / b).

Definition spec_pad_length (max_len pad_unit : Z) : Z :=
  ceil_div max_len pad_unit * pad_unit.

(** The token the specification's encoding assigns to an event. *)
Definition spec_token (width height : Z) (e : event) : Z :=
  ev_x e + width * ev_y e + width * height * ev_p e.

Definition resolution_error : exn :=
  ValueError "resolution must contain 1 or 2 elements".

(** ** Sample data *)

Definition ev (t x y p : Z) : event := mk_event t x y p.

Definition sample_a : sample :=
  [ev 0 1 2 0; ev 1500 2 1 1; ev 4000 0 3 0; ev 4250 5 5 1].

Definition sample_b : sample := [ev 10 3 4 1; ev 2010 7 0 0].

Definition batch_ab : list item := [mk_item sample_a 3 []; mk_item sample_b 7 []].

Definition sample_c : sample :=
  [ev 0 9 0 0; ev 100 8 0 0; ev 300 7 0 0; ev 600 6 0 0; ev 1000 5 0 0].

Definition batch_c : list item := [mk_item sample_c 1 []].

(** What the routine returns for [batch_ab] at resolution 128x128 and for
    [batch_c] at resolution 700, both with pad unit 4 and time information. *)
Definition out_ab : collated :=
  mk_collated
    [[2; 16386; 0; -1]; [16396; -1; -1; -1]]
    [3; 7]
    [[1500 # 1000; 2500 # 1000; 250 # 1000; 0 # 1000];
     [2000 # 1000; 0 # 1000; 0 # 1000; 0 # 1000]]
    (Np.Arr1 [3; 1]).

Definition out_c : collated :=
  mk_collated
    [[9; 8; 7; 6; -1; -1; -1; -1]]
    [1]
    [[100 # 1000; 200 # 1000; 300 # 1000; 400 # 1000;
      0 # 1000; 0 # 1000; 0 # 1000; 0 # 1000]]
    (Np.Arr2 [[4]]).

Definition c1_batch : list item :=
  [mk_item [ev 0 1 2 0; ev 1000 2 1 0; ev 3000 0 0 0] 5 []].

(** ** Notions used in the further properties *)

(** The exception of [np.pad] on a negative pad width. *)
Definition pad_error : exn := ValueError "index can't contain negative values".

(** An event of a [width] x [height] sensor with a polarity bit. *)
Definition in_sensor (width height : Z) (e : event) : Prop :=
  0 <= ev_x e < width /\ 0 <= ev_y e < height /\ 0 <= ev_p e <= 1.

(** The sample of a batch element recorded [c] microseconds later. *)
Definition shift_time (c : Z) (b : item) : item :=
  mk_item
    (map (fun e => mk_event (ev_t e + c) (ev_x e) (ev_y e) (ev_p e)) (events b))
    (label b) (aux b).

Definition qsum (l : list Q) : Q := fold_right Qplus 0%Q l.

Definition zsum (l : list Z) : Z := fold_right Z.add 0 l.

(** ** The dataset constructors

    The constructors of [tutorial_inference.ipynb] fix the arguments of the
    collation routine and describe the embedding table that the tokens
    index.  The dataset reader and the data loader are external: a loader
    is modelled by the arguments [event_stream_dataloader] constructs it
    with, a dataset by the call that opens it. *)

Module Datasets.

(** [class Data] *)
Record Data : Type := mk_Data { n_classes : Z; num_embeddings : Z }.

(** The transform given to the DVS gesture reader. *)
Inductive transform : Type :=
| Downsample (sensor_size target_size : list Z)
| Identity.

Inductive dataset : Type :=
| SHD (save_to : string) (train : bool)
| SSC (save_to : string) (split : string)
| DVSGesture (save_to : string) (train : bool) (transforms : list transform).

(** The keyword arguments of the [torch.utils.data.DataLoader] call. *)
Record loader : Type := mk_loader {
  dset : dataset;
  batch_size : Z;
  drop_last : bool;
  collate_fn : list item -> result collated;
  shuffle : bool;
  generator : option Z;
  num_workers : Z
}.

Definition event_stream_dataloader (test_data : dataset) (eval_batch_size : Z)
  (eval_collate_fn : list item -> result collated) (rng : option Z)
  (num_workers : Z) : loader :=
  let dataloader dset bsz collate_fn shuffle drop_last :=
    mk_loader dset bsz drop_last collate_fn shuffle rng num_workers in
  dataloader test_data eval_batch_size eval_collate_fn true false.

(** [rng = torch.Generator(); rng.manual_seed(seed)] when a seed is given. *)
Definition make_rng (seed : option Z) : option Z := seed.

Definition create_events_shd_classification_dataset (cache_dir : string)
  (per_device_eval_batch_size world_size num_workers : Z) (seed : option Z)
  (pad_unit : Z) (no_time_information : bool) : loader * Data :=
  let rng := make_rng seed in
  let test_data := SHD cache_dir false in
  let collate_fn batch :=
    event_stream_collate_fn batch [700] pad_unit no_time_information in
  let test_loader :=
    event_stream_dataloader test_data
      (per_device_eval_batch_size * world_size) collate_fn rng num_workers in
  let data := mk_Data 20 700 in
  (test_loader, data).

Definition create_events_ssc_classification_dataset (cache_dir : string)
  (per_device_eval_batch_size world_size num_workers : Z) (seed : option Z)
  (pad_unit : Z) (no_time_information : bool) : loader * Data :=
  let rng := make_rng seed in
  let test_data := SSC cache_dir "test" in
  let collate_fn batch :=
    event_stream_collate_fn batch [700] pad_unit no_time_information in
  let test_loader :=
    event_stream_dataloader test_data
      (per_device_eval_batch_size * world_size) collate_fn rng num_workers in
  let data := mk_Data 35 700 in
  (test_loader, data).

(** Python's [a // b] on integers raises on a zero divisor. *)
Inductive built (A : Type) : Type :=
| Built (a : A)
| ZeroDivisionError.

Arguments Built {A} a.
Arguments ZeroDivisionError {A}.

Definition create_events_dvs_gesture_classification_dataset (cache_dir : string)
  (per_device_eval_batch_size world_size num_workers : Z) (seed : option Z)
  (pad_unit downsampling : Z) : built (loader * Data) :=
  let rng := make_rng seed in
  let orig_sensor_size := [128; 128; 2] in
  if downsampling =? 0 then ZeroDivisionError
  else
    let new_sensor_size := [128 / downsampling; 128 / downsampling; 2] in
    let test_transforms :=
      [if 1 <? downsampling
       then Downsample orig_sensor_size (firstn 2 new_sensor_size)
       else Identity] in
    let test_data := DVSGesture cache_dir false test_transforms in
    let eval_collate_fn batch :=
      event_stream_collate_fn batch (firstn 2 new_sensor_size) pad_unit false in
    let test_loader :=
      event_stream_dataloader test_data
        (per_device_eval_batch_size * world_size) eval_collate_fn rng
        num_workers in
    let data := mk_Data 11 (Np.prod new_sensor_size) in
    Built (test_loader, data).

End Datasets.

(** ** Chunked online inference

    The loop and the scan of the online inference tutorial.  The model
    call [model.apply(variables, x, t, total_subsampling, False)] is
    external: it is the parameter [apply], which also stands for
    [jit_apply], the same call compiled.  Slices are taken at indices
    that are not negative, where [a[i:j]] keeps the entries from [i] up to,
    not including, [j] and stops at the end of the array. *)

Module Online.

(** [pooling_stride ** num_stages] *)
Definition total_subsampling (pooling_stride : Z) (num_stages : nat) : Z :=
  pooling_stride ^ Z.of_nat num_stages.

Fixpoint range_up (fuel : nat) (i stop step : Z) : list Z :=
  match fuel with
  | O => []
  | S fuel' => if i <? stop then i :: range_up fuel' (i + step) stop step else []
  end.

Fixpoint range_down (fuel : nat) (i stop step : Z) : list Z :=
  match fuel with
  | O => []
  | S fuel' => if stop <? i then i :: range_down fuel' (i + step) stop step else []
  end.

(** [range(start, stop, step)]; [None] stands for the [ValueError] on a
    zero step. *)
Definition py_range (start stop step : Z) : option (list Z) :=
  if step =? 0 then None
  else if 0 <? step then Some (range_up (Z.to_nat (stop - start)) start stop step)
  else Some (range_down (Z.to_nat (start - stop)) start stop step).

(** [a[i:j]] for [0 <= i]. *)
Definition slice {A : Type} (a : list A) (i j : Z) : list A :=
  firstn (Z.to_nat (j - i)) (skipn (Z.to_nat i) a).

(** [a.reshape(-1, k)] on a one-dimensional array, row by row; [None]
    stands for the error raised when the size is no multiple of [k]. *)
Definition reshape_rows {A : Type} (a : list A) (k : Z) : option (list (list A)) :=
  if k <=? 0 then None
  else if len a mod k =? 0
       then Some (map (fun r => slice a (Z.of_nat r * k) (Z.of_nat r * k + k))
                    (seq 0 (Z.to_nat (len a / k))))
       else None.

Section Inference.
Context {T logits : Type}.
Variable apply : list Z -> list T -> logits.

(** The logits computed by the iterations of
    [for i in range(0, sequence_length, total_subsampling)], in order. *)
Definition inference_loop (tokens : list Z) (timesteps : list T)
  (sequence_length total_subsampling : Z) : option (list logits) :=
  option_map
    (map (fun i =>
            let x := slice tokens i (i + total_subsampling) in
            let t := slice timesteps i (i + total_subsampling) in
            apply x t))
    (py_range 0 sequence_length total_subsampling).

(** [step] of the scan. *)
Definition step (carry : unit) (inputs : list Z * list T) : unit * logits :=
  let '(x, t) := inputs in
  (tt, apply x t).

(** [jax.lax.scan(step, init=None, xs=(tokens, timesteps))] on two arrays
    with the same number of rows. *)
Definition scan (tokens : list (list Z)) (timesteps : list (list T))
  : option (unit * list logits) :=
  if Nat.eqb (length tokens) (length timesteps)
  then Some (fold_left
               (fun acc inputs =>
                  let '(carry, ys) := acc in
                  let '(carry', y) := step carry inputs in
                  (carry', ys ++ [y]))
               (combine tokens timesteps) (tt, []))
  else None.

(** Reshaping to rows of [total_subsampling] entries, then scanning. *)
Definition inference_scan (tokens : list Z) (timesteps : list T)
  (total_subsampling : Z) : option (unit * list logits) :=
  match reshape_rows tokens total_subsampling,
        reshape_rows timesteps total_subsampling with
  | Some tokens2, Some timesteps2 => scan tokens2 timesteps2
  | _, _ => None
  end.

End Inference.

End Online.

(** ** Lemmas on the primitives *)

Lemma bind_Ok_inv {A B : Type} (c : result A) (k : A -> result B) (b : B) :
  bind c k = Ok b -> exists a, c = Ok a /\ k a = Ok b.
Proof. destruct c as [a|e]; simpl; [eauto | discriminate]. Qed.

Section MonadLemmas.
Context {A B : Type}.

Lemma mapM_Ok_Forall2 (f : A -> result B) (l : list A) (l' : list B) :
  mapM f l = Ok l' <-> Forall2 (fun a b => f a = Ok b) l l'.
Proof.
  revert l'; induction l as [|a l IH]; intros l'; simpl.
  - split; intros H; [injection H as <-; constructor | inversion H; reflexivity].
  - split.
    + intros H. apply bind_Ok_inv in H as (b & Hb & H).
      destruct (mapM f l) as [bs|e] eqn:E; simpl in H; [|discriminate].
      injection H as <-. constructor; [assumption | now apply IH].
    + intros H. inversion H as [|? b ? bs Hb Hbs]; subst.
      rewrite Hb; simpl. apply IH in Hbs. rewrite Hbs. reflexivity.
Qed.
End MonadLemmas.

Section ZipLemmas.
Context {A : Type}.

Lemma heads_None_iff (rows : list (list A)) :
  heads rows = None <-> Exists (fun r => r = []) rows.
Proof.
  induction rows as [|r rows IH]; simpl.
  - split; [discriminate | intros H; inversion H].
  - destruct r as [|a r].
    + split; [intros _; now left | reflexivity].
    + fold (heads rows). destruct (heads rows) as [hs|].
      * split; [discriminate|]. intros H.
        inversion H as [? ? H0|? ? H0]; subst; [discriminate|].
        apply IH in H0. discriminate.
      * split; [|reflexivity]. intros _. right. now apply IH.
Qed.

(** [zip] yields no column exactly when one of the rows is empty. *)
Lemma zip_star_nil_iff (first : list A) (rest : list (list A)) :
  zip_star first rest = [] <-> Exists (fun r => r = []) (first :: rest).
Proof.
  destruct first as [|a first]; simpl.
  - split; [intros _; now left | reflexivity].
  - destruct (heads rest) as [hs|] eqn:E.
    + split; [discriminate|]. intros H.
      inversion H as [? ? H0|? ? H0]; subst; [discriminate|].
      apply heads_None_iff in H0. congruence.
    + split; [|reflexivity]. intros _. right. now apply heads_None_iff.
Qed.
End ZipLemmas.

Section ArrayLemmas.

Lemma len_nonneg {A : Type} (l : list A) : 0 <= len l.
Proof. unfold len; lia. Qed.

Lemma length_removelast {A : Type} (l : list A) :
  length (removelast l) = pred (length l).
Proof.
  induction l as [|a [|b l] IH]; simpl in *; try reflexivity.
  now rewrite IH.
Qed.

Lemma nth_error_removelast {A : Type} (l : list A) (j : nat) :
  (j < pred (length l))%nat -> nth_error (removelast l) j = nth_error l j.
Proof.
  revert j; induction l as [|a [|b l] IH]; intros j Hj; simpl in *; try lia.
  destruct j as [|j]; [reflexivity|]. apply IH. lia.
Qed.

Lemma length_diff (a : list Z) : length (Np.diff a) = pred (length a).
Proof.
  induction a as [|a0 [|a1 a] IH]; simpl in *; try reflexivity.
  now rewrite IH.
Qed.

(** Entry [j] of [np.diff(a)] is [a[j+1] - a[j]]. *)
Lemma nth_error_diff (a : list Z) (j : nat) (t0 t1 : Z) :
  nth_error a j = Some t0 -> nth_error a (S j) = Some t1 ->
  nth_error (Np.diff a) j = Some (t1 - t0).
Proof.
  revert j; induction a as [|a0 [|a1 a] IH]; intros j H0 H1.
  - destruct j; discriminate.
  - destruct j as [|[|j]]; discriminate.
  - destruct j as [|j].
    + simpl in *. congruence.
    + change (nth_error (Np.diff (a1 :: a)) j = Some (t1 - t0)).
      apply IH; assumption.
Qed.

Lemma max_Ok_inv (a : list Z) (m : Z) :
  Np.max a = Ok m -> a <> [] /\ In m a /\ Forall (fun v => v <= m) a.
Proof.
  destruct a as [|a0 a]; simpl; [discriminate|].
  intros H; injection H as <-. split; [discriminate|].
  revert a0; induction a as [|a1 a IH]; intros a0; simpl.
  - split; [now left | repeat constructor; lia].
  - destruct (IH (Z.max a0 a1)) as [Hin Hall]. split.
    + destruct Hin as [Hin|Hin]; [|now right; right].
      rewrite <- Hin. destruct (Z.max_spec a0 a1) as [[_ ->]|[_ ->]]; auto.
    + inversion Hall as [|? ? Hm Hrest]; subst.
      repeat constructor; try lia; assumption.
Qed.

Lemma max_Ok_intro (a : list Z) :
  a <> [] -> exists m, Np.max a = Ok m.
Proof. destruct a; [congruence | simpl; eauto]. Qed.

End ArrayLemmas.

(** ** Padding and stacking *)

Section PadLemmas.
Context {A : Type} (pad_len : Z) (c : A).

Lemma length_pad_row (e : list A) :
  len e <= pad_len -> length (pad_row pad_len c e) = Z.to_nat pad_len.
Proof.
  intros H. unfold pad_row, len in *.
  rewrite length_app, repeat_length. lia.
Qed.

Lemma nth_error_pad_row_data (e : list A) (j : nat) :
  (j < length e)%nat -> nth_error (pad_row pad_len c e) j = nth_error e j.
Proof. intros H. unfold pad_row. now rewrite nth_error_app1. Qed.

Lemma nth_error_pad_row_fill (e : list A) (j : nat) :
  len e <= Z.of_nat j < pad_len -> nth_error (pad_row pad_len c e) j = Some c.
Proof.
  unfold pad_row, len. intros H.
  rewrite nth_error_app2 by lia. apply nth_error_repeat. lia.
Qed.

Lemma mapM_pad_iff (arrays rows : list (list A)) :
  mapM (fun e => Np.pad e (pad_len - len e) c) arrays = Ok rows <->
  Forall (fun e => len e <= pad_len) arrays /\ rows = map (pad_row pad_len c) arrays.
Proof.
  rewrite mapM_Ok_Forall2. split.
  - induction 1 as [|e r arrays rows Hpad _ [IH1 IH2]]; [now split|].
    unfold Np.pad in Hpad.
    destruct (Z.ltb_spec (pad_len - len e) 0); [discriminate|].
    injection Hpad as <-. split; [constructor; [lia|assumption]|].
    simpl. now rewrite IH2.
  - intros [Hall ->]. induction Hall as [|e arrays He _ IH]; simpl; constructor.
    + unfold Np.pad. destruct (Z.ltb_spec (pad_len - len e) 0); [lia|reflexivity].
    + assumption.
Qed.

Lemma stack_padded (arrays : list (list A)) :
  arrays <> [] -> Forall (fun e => len e <= pad_len) arrays ->
  Np.stack (map (pad_row pad_len c) arrays) = Ok (map (pad_row pad_len c) arrays).
Proof.
  intros Hne Hall. destruct arrays as [|a arrays]; [congruence|].
  inversion Hall as [|? ? Ha Hrest]; subst. simpl.
  replace (forallb _ _) with true; [reflexivity|].
  symmetry. apply forallb_forall. intros r Hr.
  apply in_map_iff in Hr as (e & <- & He).
  rewrite Forall_forall in Hrest.
  rewrite !length_pad_row by auto. apply Nat.eqb_refl.
Qed.

Lemma pad_and_stack_Ok_iff (arrays rows : list (list A)) :
  pad_and_stack pad_len c arrays = Ok rows <->
  arrays <> [] /\ Forall (fun e => len e <= pad_len) arrays /\
  rows = map (pad_row pad_len c) arrays.
Proof.
  unfold pad_and_stack. split.
  - intros H. apply bind_Ok_inv in H as (padded & Hp & Hs).
    apply mapM_pad_iff in Hp as [Hall ->].
    destruct arrays as [|a arrays]; [discriminate|].
    split; [discriminate|]. split; [assumption|].
    rewrite stack_padded in Hs by (auto; discriminate). congruence.
  - intros (Hne & Hall & ->).
    rewrite (proj2 (mapM_pad_iff arrays _) (conj Hall eq_refl)). simpl.
    now apply stack_padded.
Qed.
End PadLemmas.

(** ** The routine in closed form *)

Section SampleLemmas.
Variables (resolution : list Z) (no_time_information : bool).

Lemma length_raw_timesteps (e : sample) :
  length (raw_timesteps no_time_information e) = pred (length e).
Proof.
  unfold raw_timesteps, Np.ones_like, col. destruct no_time_information.
  - now rewrite length_map, length_removelast, length_map.
  - now rewrite length_diff, length_map.
Qed.

Lemma length_sample_tokens (e : sample) :
  length (sample_tokens resolution e) = pred (length e).
Proof.
  unfold sample_tokens, tokens_1d, tokens_2d, col.
  destruct (Nat.eqb _ _);
    now rewrite length_map, length_removelast, ?length_map.
Qed.

Lemma len_sample_tokens (e : sample) :
  len (sample_tokens resolution e) = len (raw_timesteps no_time_information e).
Proof. unfold len. now rewrite length_sample_tokens, length_raw_timesteps. Qed.
End SampleLemmas.

(** After [x, y, *z = zip( *batch )], [z] is empty exactly when some
    element of the batch has no component beyond the first two. *)
Lemma zip_aux_nil_iff (b : item) (bs : list item) :
  zip_star (aux b) (map aux bs) = [] <->
  Exists (fun b0 => aux b0 = []) (b :: bs).
Proof.
  rewrite zip_star_nil_iff.
  change (aux b :: map aux bs) with (map aux (b :: bs)).
  now rewrite Exists_map.
Qed.

Lemma tokens_branch_Ok_iff (resolution : list Z) (x : list sample) toks :
  match length resolution with
  | 1%nat => Ok (map tokens_1d x)
  | 2%nat => Ok (map (tokens_2d resolution) x)
  | _ => Raise (ValueError "resolution must contain 1 or 2 elements")
  end = Ok toks <->
  (length resolution = 1 \/ length resolution = 2)%nat /\
  toks = map (sample_tokens resolution) x.
Proof.
  unfold sample_tokens.
  destruct resolution as [|w [|h [|d r]]]; simpl; split;
    try discriminate; try (intros [[?|?] _]; discriminate);
    try (intros H; injection H as <-; auto);
    intros [_ ->]; reflexivity.
Qed.

Lemma collate_Ok_iff batch resolution pad_unit nti out :
  event_stream_collate_fn batch resolution pad_unit nti = Ok out <->
  exists max_len,
    returns batch resolution pad_unit nti max_len /\
    out = collate_result batch resolution pad_unit nti max_len.
Proof.
  unfold event_stream_collate_fn, returns, collate_result, sample_lengths.
  split.
  - intros H. destruct batch as [|b bs]; [discriminate|].
    cbn [unpack_batch bind] in H.
    destruct (Nat.eqb_spec (length (zip_star (aux b) (map aux bs))) 0) as [Hz|Hz];
      [|discriminate].
    cbn [py_assert bind] in H.
    apply length_zero_iff_nil, zip_aux_nil_iff in Hz.
    change (Np.stack_scalars (map label (b :: bs)))
      with (Ok (map label (b :: bs))) in H.
    cbn [bind] in H.
    remember (b :: bs) as batch eqn:Eb in *. clear Eb b bs.
    apply bind_Ok_inv in H as (toks & Htoks & H).
    apply tokens_branch_Ok_iff in Htoks as [Hres ->].
    apply bind_Ok_inv in H as (max_len & Hmax & H).
    apply bind_Ok_inv in H as (trows & Htrows & H).
    apply bind_Ok_inv in H as (drows & Hdrows & H).
    apply pad_and_stack_Ok_iff in Htrows as (_ & _ & ->).
    apply pad_and_stack_Ok_iff in Hdrows as (_ & Hall & ->).
    injection H as <-. exists max_len.
    rewrite !map_map in *. rewrite Forall_map in Hall.
    rewrite length_map. repeat split; auto.
  - intros (max_len & (Hex & Hres & Hmax & Hall) & ->).
    destruct batch as [|b bs]; [inversion Hex|].
    cbn [unpack_batch bind].
    assert (Hz : zip_star (aux b) (map aux bs) = [])
      by now apply zip_aux_nil_iff.
    rewrite Hz.
    change (py_assert (Nat.eqb (@length (list Z) []) 0)) with (Ok tt).
    change (Np.stack_scalars (map label (b :: bs)))
      with (Ok (map label (b :: bs))).
    cbn [bind].
    remember (b :: bs) as batch eqn:Eb.
    assert (Hne : batch <> []) by (subst; discriminate).
    clear Eb Hz Hex b bs.
    rewrite (proj2 (tokens_branch_Ok_iff resolution (map events batch)
                      (map (sample_tokens resolution) (map events batch)))
               (conj Hres eq_refl)).
    cbn [bind]. rewrite !map_map in *. rewrite Hmax. cbn [bind].
    erewrite (proj2 (pad_and_stack_Ok_iff _ (-1) _ _)).
    2:{ split; [|split; [|reflexivity]].
        - destruct batch; [congruence | discriminate].
        - rewrite Forall_map. revert Hall. apply Forall_impl. intros a.
          now rewrite (len_sample_tokens resolution nti). }
    cbn [bind].
    erewrite (proj2 (pad_and_stack_Ok_iff _ 0 _ _)).
    2:{ split; [|split; [|reflexivity]].
        - destruct batch; [congruence | discriminate].
        - now rewrite Forall_map. }
    cbn [bind]. rewrite !map_map, length_map. reflexivity.
Qed.

(** ** The pad length *)

Section PadLength.
Variables (m u : Z).
Hypothesis u_pos : 0 < u.

Lemma ceil_div_bounds : m <= ceil_div m u * u < m + u.
Proof.
  unfold ceil_div.
  pose proof (Z.div_mod (- m) u ltac:(lia)).
  pose proof (Z.mod_pos_bound (- m) u u_pos). nia.
Qed.

Lemma floor_bounds : m - u < m / u * u <= m.
Proof.
  pose proof (Z.div_mod m u ltac:(lia)).
  pose proof (Z.mod_pos_bound m u u_pos). nia.
Qed.

Lemma multiples_apart (j k : Z) : j * u < k * u + u -> j <= k.
Proof. nia. Qed.

(** The pad length is a multiple of the pad unit strictly above [m]... *)
Lemma pad_length_gt : m < pad_length m u.
Proof. unfold pad_length. pose proof floor_bounds. lia. Qed.

Lemma pad_length_le : pad_length m u <= m + u.
Proof. unfold pad_length. pose proof floor_bounds. lia. Qed.

(** ... and the least one. *)
Lemma pad_length_least (k : Z) : m < k * u -> pad_length m u <= k * u.
Proof.
  unfold pad_length. pose proof floor_bounds. intros Hk.
  assert (m / u + 1 <= k) by (apply multiples_apart; lia). nia.
Qed.

Lemma pad_length_not_multiple :
  m mod u <> 0 -> pad_length m u = spec_pad_length m u.
Proof.
  intros Hr. unfold pad_length, spec_pad_length.
  pose proof ceil_div_bounds. pose proof floor_bounds.
  pose proof (Z.div_mod m u ltac:(lia)).
  assert (ceil_div m u <= m / u + 1) by (apply multiples_apart; lia).
  assert (m / u + 1 <= ceil_div m u).
  { apply multiples_apart. nia. }
  nia.
Qed.

Lemma pad_length_multiple :
  m mod u = 0 -> pad_length m u = spec_pad_length m u + u.
Proof.
  intros Hr. unfold pad_length, spec_pad_length.
  pose proof ceil_div_bounds.
  pose proof (Z.div_mod m u ltac:(lia)).
  assert (ceil_div m u <= m / u) by (apply multiples_apart; nia).
  assert (m / u <= ceil_div m u) by (apply multiples_apart; nia).
  nia.
Qed.
End PadLength.

Lemma pad_length_divide (m u : Z) : (u | pad_length m u).
Proof. exists (m / u + 1). unfold pad_length. ring. Qed.

(** ** What the routine returns, sample by sample *)

Lemma returns_lengths_le batch resolution pad_unit nti max_len :
  returns batch resolution pad_unit nti max_len ->
  Forall (fun n => n <= max_len) (sample_lengths nti batch) /\
  max_len <= pad_length max_len pad_unit.
Proof.
  intros (_ & _ & Hmax & Hall).
  apply max_Ok_inv in Hmax as (_ & Hin & Hle). split; [assumption|].
  unfold sample_lengths in Hin. apply in_map_iff in Hin as (b & <- & Hb).
  rewrite Forall_forall in Hall. now apply Hall.
Qed.

Lemma collate_rows batch resolution pad_unit nti out i b :
  event_stream_collate_fn batch resolution pad_unit nti = Ok out ->
  nth_error batch i = Some b ->
  exists max_len,
    returns batch resolution pad_unit nti max_len /\
    nth_error (tokens out) i =
      Some (pad_row (pad_length max_len pad_unit) (-1)
              (sample_tokens resolution (events b))) /\
    nth_error (labels out) i = Some (label b) /\
    nth_error (timesteps out) i =
      Some (map div1000 (pad_row (pad_length max_len pad_unit) 0
                           (raw_timesteps nti (events b)))) /\
    nth_error (Np.ravel (lengths out)) i = Some (len (raw_timesteps nti (events b))).
Proof.
  intros H Hb. apply collate_Ok_iff in H as (max_len & Hret & ->).
  exists max_len. split; [assumption|]. unfold collate_result; cbn [tokens labels timesteps lengths].
  assert (Hl : nth_error (sample_lengths nti batch) i
               = Some (len (raw_timesteps nti (events b)))).
  { unfold sample_lengths. now rewrite nth_error_map, Hb. }
  rewrite !nth_error_map, Hb. repeat split.
  destruct (Nat.eqb _ _); cbn [Np.ravel Np.expand_leading concat];
    now rewrite ?app_nil_r.
Qed.

(** The routine returns on every non-empty batch of pairs when the
    resolution has one or two elements and the pad unit is positive. *)
Lemma collate_total batch resolution pad_unit nti :
  Exists (fun b => aux b = []) batch ->
  (length resolution = 1 \/ length resolution = 2)%nat ->
  0 < pad_unit ->
  exists max_len,
    returns batch resolution pad_unit nti max_len /\
    event_stream_collate_fn batch resolution pad_unit nti
    = Ok (collate_result batch resolution pad_unit nti max_len).
Proof.
  intros Hex Hres Hpos.
  destruct (max_Ok_intro (sample_lengths nti batch)) as [max_len Hmax].
  { destruct batch; [inversion Hex | discriminate]. }
  assert (Hret : returns batch resolution pad_unit nti max_len).
  { repeat split; auto.
    apply max_Ok_inv in Hmax as (_ & _ & Hle).
    unfold sample_lengths in Hle. rewrite Forall_map in Hle.
    revert Hle. apply Forall_impl. intros b Hb.
    pose proof (pad_length_gt max_len pad_unit Hpos). lia. }
  exists max_len. split; [assumption|].
  apply collate_Ok_iff. eauto.
Qed.

Lemma collate_row_index batch resolution pad_unit nti out i :
  event_stream_collate_fn batch resolution pad_unit nti = Ok out ->
  (i < length (tokens out) \/ i < length (timesteps out)
   \/ i < length (Np.ravel (lengths out)))%nat ->
  exists b, nth_error batch i = Some b.
Proof.
  intros H Hi. apply collate_Ok_iff in H as (max_len & _ & ->).
  unfold collate_result in Hi; cbn [tokens timesteps lengths] in Hi.
  assert (Hlt : (i < length batch)%nat).
  { destruct (Nat.eqb _ _); cbn [Np.ravel Np.expand_leading concat] in Hi;
      unfold sample_lengths in Hi;
      rewrite ?app_nil_r, !length_map in Hi; lia. }
  destruct (nth_error batch i) eqn:E; [eauto|].
  apply nth_error_None in E. lia.
Qed.

Lemma div1000_spec (d : Z) : (div1000 d == inject_Z d / 1000)%Q.
Proof. unfold div1000, Qeq, Qdiv, Qmult, Qinv, inject_Z. simpl. lia. Qed.

(** ** Tokens *)

Lemma astype_int32_small (z : Z) :
  - 2 ^ 31 <= z < 2 ^ 31 -> Np.astype_int32 z = z.
Proof.
  intros H. unfold Np.astype_int32.
  rewrite Z.mod_small by lia. lia.
Qed.

(** On the two-dimensional path a non-padded token is the product of the
    two coordinates plus the polarity offset. *)
Lemma collate_token_2d batch width height pad_unit nti out i b j e :
  event_stream_collate_fn batch [width; height] pad_unit nti = Ok out ->
  nth_error batch i = Some b ->
  nth_error (events b) j = Some e ->
  (S j < length (events b))%nat ->
  exists row,
    nth_error (tokens out) i = Some row /\
    nth_error row j = Some (token_2d [width; height] e).
Proof.
  intros H Hb He Hj.
  destruct (collate_rows _ _ _ _ _ _ _ H Hb) as (m & _ & Ht & _).
  eexists. split; [exact Ht|].
  rewrite nth_error_pad_row_data
    by (rewrite length_sample_tokens; lia).
  unfold sample_tokens, tokens_2d. cbn [length Nat.eqb].
  rewrite nth_error_map, nth_error_removelast by lia.
  now rewrite He.
Qed.

Lemma token_2d_in_range width height e :
  - 2 ^ 31 <= ev_p e < 2 ^ 31 ->
  - 2 ^ 31 <= ev_x e * ev_y e + width * height * ev_p e < 2 ^ 31 ->
  token_2d [width; height] e = ev_x e * ev_y e + width * height * ev_p e.
Proof.
  intros Hp Hr. unfold token_2d, Np.prod. cbn [fold_right].
  rewrite (astype_int32_small (ev_p e)) by assumption.
  rewrite Z.mul_1_r. now apply astype_int32_small.
Qed.

(** C1 (evaluation of the code where it departs from the claim): collating
    one 128x128 sample whose first two events are at (x, y) = (1, 2) and
    (2, 1), polarity 0, returns the token 2 at both non-padded positions,
    whereas the encoding x + width*y + width*height*polarity assigns them
    257 and 130. *)
Theorem C1_token_at_failing_input :
  event_stream_collate_fn c1_batch [128; 128] 4 false
  = Ok (mk_collated [[2; 2; -1; -1]] [5]
          [[div1000 1000; div1000 2000; div1000 0; div1000 0]]
          (Np.Arr2 [[2]])) /\
  spec_token 128 128 (ev 0 1 2 0) = 257 /\
  spec_token 128 128 (ev 1000 2 1 0) = 130.
Proof. repeat split. Qed.

(** ** Claims on the pad length and the shapes *)

(** C2 (counterexample): the longest delta sequence of [batch_c] has 4
    entries; with pad unit 4 the rows come out 8 wide, not
    [ceil(4 / 4) * 4 = 4] (nor the larger of that and one pad unit).
    Reading the parenthesis as one more pad unit on top of the ceiling
    fails on [batch_ab]: longest sequence 3, rows 4 wide, not 8. *)
Lemma C2_counterexample :
  (event_stream_collate_fn batch_c [700] 4 false = Ok out_c /\
   Np.max (sample_lengths false batch_c) = Ok 4 /\
   map len (tokens out_c) = [8] /\
   spec_pad_length 4 4 = 4 /\
   Z.max (spec_pad_length 4 4) 4 = 4) /\
  (event_stream_collate_fn batch_ab [128; 128] 4 false = Ok out_ab /\
   Np.max (sample_lengths false batch_ab) = Ok 3 /\
   map len (tokens out_ab) = [4; 4] /\
   spec_pad_length 3 4 + 4 = 8).
Proof. repeat split. Qed.

(** C2 (amended): the rows are padded to
    [floor(max_len / pad_unit) * pad_unit + pad_unit], where [max_len] is
    the length of the longest per-sample delta sequence.  For a positive
    pad unit this is the least multiple of the pad unit strictly above
    [max_len]: it is [ceil(max_len / pad_unit) * pad_unit] when [max_len] is
    not a multiple of the pad unit, and one pad unit more when it is. *)
Theorem C2_pad_length batch resolution pad_unit nti out :
  event_stream_collate_fn batch resolution pad_unit nti = Ok out ->
  exists max_len,
    In max_len (sample_lengths nti batch) /\
    Forall (fun n => n <= max_len) (sample_lengths nti batch) /\
    let P := max_len / pad_unit * pad_unit + pad_unit in
    Forall (fun row => len row = P) (tokens out) /\
    Forall (fun row => len row = P) (timesteps out) /\
    (0 < pad_unit ->
     max_len < P /\
     (forall k, max_len < k * pad_unit -> P <= k * pad_unit) /\
     (max_len mod pad_unit <> 0 -> P = spec_pad_length max_len pad_unit) /\
     (max_len mod pad_unit = 0 -> P = spec_pad_length max_len pad_unit + pad_unit)).
Proof.
  intros H. apply collate_Ok_iff in H as (m & Hret & ->).
  destruct (returns_lengths_le _ _ _ _ _ Hret) as [_ HmP].
  pose proof Hret as (_ & _ & Hmax & Hall).
  apply max_Ok_inv in Hmax as (_ & Hin & Hle).
  exists m. split; [assumption|]. split; [assumption|].
  fold (pad_length m pad_unit). cbv zeta.
  assert (Hm : 0 <= m).
  { unfold sample_lengths in Hin. apply in_map_iff in Hin as (b & <- & _).
    apply len_nonneg. }
  unfold collate_result; cbn [tokens timesteps].
  split; [|split].
  - rewrite Forall_map. revert Hall. apply Forall_impl. intros b Hb.
    unfold len at 1. rewrite length_pad_row; [lia|].
    now rewrite (len_sample_tokens resolution nti).
  - rewrite Forall_map. revert Hall. apply Forall_impl. intros b Hb.
    unfold len at 1. rewrite length_map, length_pad_row; [lia|assumption].
  - intros Hpos. repeat split.
    + now apply pad_length_gt.
    + now apply pad_length_least.
    + now apply pad_length_not_multiple.
    + now apply pad_length_multiple.
Qed.

Lemma C2_pad_length_witness :
  exists max_len,
    In max_len (sample_lengths false batch_c) /\
    Forall (fun n => n <= max_len) (sample_lengths false batch_c) /\
    let P := max_len / 4 * 4 + 4 in
    Forall (fun row => len row = P)
      (tokens (collate_result batch_c [700] 4 false 4)) /\
    Forall (fun row => len row = P)
      (timesteps (collate_result batch_c [700] 4 false 4)) /\
    (0 < 4 ->
     max_len < P /\
     (forall k, max_len < k * 4 -> P <= k * 4) /\
     (max_len mod 4 <> 0 -> P = spec_pad_length max_len 4) /\
     (max_len mod 4 = 0 -> P = spec_pad_length max_len 4 + 4)).
Proof.
  apply (C2_pad_length batch_c [700] 4 false). reflexivity.
Defined.

(** C4: whenever the routine returns, the token and the timestep arrays
    both have [batch_size] rows of one common width [pad_length]; that
    width is a multiple of the pad unit and no smaller than any sample
    length (and, for a positive pad unit, than any raw event count). *)
Theorem C4_shapes batch resolution pad_unit nti out :
  event_stream_collate_fn batch resolution pad_unit nti = Ok out ->
  exists pad_len : nat,
    length (tokens out) = length batch /\
    length (timesteps out) = length batch /\
    Forall (fun row => length row = pad_len) (tokens out) /\
    Forall (fun row => length row = pad_len) (timesteps out) /\
    (pad_unit | Z.of_nat pad_len) /\
    Forall (fun n => n <= Z.of_nat pad_len) (Np.ravel (lengths out)) /\
    (0 < pad_unit -> Forall (fun b => len (events b) <= Z.of_nat pad_len) batch).
Proof.
  intros H. apply collate_Ok_iff in H as (m & Hret & ->).
  pose proof Hret as (Hex & _ & Hmax & Hall).
  destruct (returns_lengths_le _ _ _ _ _ Hret) as [Hle HmP].
  apply max_Ok_inv in Hmax as (_ & Hin & _).
  assert (Hm : 0 <= m).
  { unfold sample_lengths in Hin. apply in_map_iff in Hin as (b & <- & _).
    apply len_nonneg. }
  exists (Z.to_nat (pad_length m pad_unit)).
  unfold collate_result; cbn [tokens timesteps lengths].
  rewrite !length_map, Z2Nat.id by lia. repeat split.
  - rewrite Forall_map. revert Hall. apply Forall_impl. intros b Hb.
    apply length_pad_row. now rewrite (len_sample_tokens resolution nti).
  - rewrite Forall_map. revert Hall. apply Forall_impl. intros b Hb.
    rewrite length_map. now apply length_pad_row.
  - apply pad_length_divide.
  - assert (Forall (fun n => n <= pad_length m pad_unit) (sample_lengths nti batch)).
    { revert Hle. apply Forall_impl. intros; lia. }
    destruct (Nat.eqb _ _); cbn [Np.ravel Np.expand_leading concat];
      now rewrite ?app_nil_r.
  - intros Hpos. pose proof (pad_length_gt m pad_unit Hpos).
    unfold sample_lengths in Hle. rewrite Forall_map in Hle.
    revert Hle. apply Forall_impl. intros b Hb.
    unfold len in *. rewrite length_raw_timesteps in Hb. lia.
Qed.

Lemma C4_shapes_witness :
  exists pad_len : nat,
    length (tokens (collate_result batch_ab [128; 128] 4 false 3)) = 2%nat /\
    length (timesteps (collate_result batch_ab [128; 128] 4 false 3)) = 2%nat /\
    Forall (fun row => length row = pad_len)
      (tokens (collate_result batch_ab [128; 128] 4 false 3)) /\
    Forall (fun row => length row = pad_len)
      (timesteps (collate_result batch_ab [128; 128] 4 false 3)) /\
    (4 | Z.of_nat pad_len) /\
    Forall (fun n => n <= Z.of_nat pad_len)
      (Np.ravel (lengths (collate_result batch_ab [128; 128] 4 false 3))) /\
    (0 < 4 -> Forall (fun b => len (events b) <= Z.of_nat pad_len) batch_ab).
Proof.
  apply (C4_shapes batch_ab [128; 128] 4 false). reflexivity.
Defined.

(** ** Claims on the entries *)

(** C3 (counterexample): in the no-time-information mode the first
    timestep returned for [sample_a] is 1/1000, which is not 1. *)
Lemma C3_counterexample :
  event_stream_collate_fn [mk_item sample_a 3 []] [700] 3 true
  = Ok (mk_collated [[1; 2; 0; -1; -1; -1]] [3]
          [[1 # 1000; 1 # 1000; 1 # 1000; 0 # 1000; 0 # 1000; 0 # 1000]]
          (Np.Arr2 [[3]])) /\
  ~ (1 # 1000 == 1)%Q.
Proof. split; [reflexivity | discriminate]. Qed.

(** C3 (amended): in the no-time-information mode every non-padded
    timestep the routine returns is the constant 1/1000, that is the
    constant 1 after the division by 1000 that all timesteps undergo,
    whatever the timestamps are. *)
Theorem C3_constant_timestep batch resolution pad_unit out i n j :
  event_stream_collate_fn batch resolution pad_unit true = Ok out ->
  nth_error (Np.ravel (lengths out)) i = Some n ->
  Z.of_nat j < n ->
  exists row v,
    nth_error (timesteps out) i = Some row /\
    nth_error row j = Some v /\
    (v == 1 / 1000)%Q.
Proof.
  intros H Hn Hj.
  destruct (collate_row_index _ _ _ _ _ i H) as [b Hb].
  { right; right. apply nth_error_Some. congruence. }
  destruct (collate_rows _ _ _ _ _ _ _ H Hb) as (m & _ & _ & _ & Hd & Hl).
  assert (n = len (raw_timesteps true (events b))) by congruence. subst n.
  unfold len in Hj.
  eexists. exists (div1000 1). split; [exact Hd|]. split.
  - rewrite nth_error_map, nth_error_pad_row_data by lia.
    unfold raw_timesteps, Np.ones_like in *.
    rewrite nth_error_map.
    destruct (nth_error _ j) eqn:E; [reflexivity|].
    apply nth_error_None in E. rewrite length_map in Hj. lia.
  - apply (div1000_spec 1).
Qed.

Lemma C3_constant_timestep_witness :
  exists row v,
    nth_error (timesteps (collate_result [mk_item sample_a 3 []] [700] 3 true 3)) 0
    = Some row /\
    nth_error row 2 = Some v /\
    (v == 1 / 1000)%Q.
Proof.
  apply (C3_constant_timestep [mk_item sample_a 3 []] [700] 3 _ 0%nat 3 2%nat);
    [reflexivity | reflexivity | lia].
Defined.

(** C5: in every row of a collated batch, each position at or beyond the
    sample's true length (its entry of the length vector) holds the token
    -1 and the timestep 0. *)
Theorem C5_padding batch resolution pad_unit nti out i n trow drow j :
  event_stream_collate_fn batch resolution pad_unit nti = Ok out ->
  nth_error (Np.ravel (lengths out)) i = Some n ->
  nth_error (tokens out) i = Some trow ->
  nth_error (timesteps out) i = Some drow ->
  n <= Z.of_nat j ->
  (j < length trow)%nat ->
  nth_error trow j = Some (-1) /\
  exists v, nth_error drow j = Some v /\ (v == 0)%Q.
Proof.
  intros H Hn Ht Hd Hj Hlt.
  destruct (collate_row_index _ _ _ _ _ i H) as [b Hb].
  { left. apply nth_error_Some. congruence. }
  destruct (collate_rows _ _ _ _ _ _ _ H Hb) as (m & Hret & Ht' & _ & Hd' & Hl).
  destruct Hret as (_ & _ & _ & Hall).
  rewrite Forall_forall in Hall.
  pose proof (Hall b (nth_error_In _ _ Hb)) as HbP.
  rewrite Ht in Ht'. rewrite Hd in Hd'. rewrite Hn in Hl.
  injection Ht' as ->. injection Hd' as ->. injection Hl as ->.
  rewrite length_pad_row in Hlt
    by now rewrite (len_sample_tokens resolution nti).
  split.
  - apply nth_error_pad_row_fill.
    rewrite (len_sample_tokens resolution nti). lia.
  - exists (div1000 0). split; [|reflexivity].
    rewrite nth_error_map, nth_error_pad_row_fill by lia. reflexivity.
Qed.

Lemma C5_padding_witness :
  nth_error [16396; -1; -1; -1] 2 = Some (-1) /\
  exists v,
    nth_error [div1000 2000; div1000 0; div1000 0; div1000 0] 2 = Some v /\
    (v == 0)%Q.
Proof.
  apply (C5_padding batch_ab [128; 128] 4 false
           (collate_result batch_ab [128; 128] 4 false 3) 1%nat 1);
    [reflexivity | reflexivity | reflexivity | reflexivity | lia | simpl; lia].
Defined.

(** C6 (counterexample): a sample without any event gets the length 0,
    not [len(events) - 1 = -1]. *)
Lemma C6_counterexample :
  event_stream_collate_fn [mk_item [] 3 []] [700] 4 false
  = Ok (mk_collated [[-1; -1; -1; -1]] [3]
          [[0 # 1000; 0 # 1000; 0 # 1000; 0 # 1000]] (Np.Arr2 [[0]])) /\
  len (events (mk_item [] 3 [])) - 1 = -1 /\
  0 <> -1.
Proof. repeat split. discriminate. Qed.

(** C6 (amended): the length vector holds, for every sample with at least
    one event, one less than its raw event count, and 0 for a sample
    without events: [lengths[i] = max(len(events[i]) - 1, 0)]. *)
Theorem C6_lengths batch resolution pad_unit nti out i b :
  event_stream_collate_fn batch resolution pad_unit nti = Ok out ->
  nth_error batch i = Some b ->
  nth_error (Np.ravel (lengths out)) i = Some (Z.max (len (events b) - 1) 0) /\
  (events b <> [] ->
   nth_error (Np.ravel (lengths out)) i = Some (len (events b) - 1)).
Proof.
  intros H Hb.
  destruct (collate_rows _ _ _ _ _ _ _ H Hb) as (m & _ & _ & _ & _ & Hl).
  rewrite Hl. unfold len. rewrite length_raw_timesteps.
  destruct (events b) as [|e0 es].
  - split; [reflexivity | congruence].
  - cbn [length pred]. split; [|intros _]; apply f_equal; lia.
Qed.

Lemma C6_lengths_witness :
  nth_error (Np.ravel (lengths (collate_result batch_ab [128; 128] 4 false 3))) 1
  = Some (Z.max (len sample_b - 1) 0) /\
  (sample_b <> [] ->
   nth_error (Np.ravel (lengths (collate_result batch_ab [128; 128] 4 false 3))) 1
   = Some (len sample_b - 1)).
Proof.
  apply (C6_lengths batch_ab [128; 128] 4 false _ 1%nat (mk_item sample_b 7 []));
    reflexivity.
Defined.

(** C7: in the default mode, the timestep returned at a non-padded
    position [j] of a sample is the difference of its consecutive raw
    timestamps [t[j+1] - t[j]] divided by 1000. *)
Theorem C7_time_deltas batch resolution pad_unit out i b n j :
  event_stream_collate_fn batch resolution pad_unit false = Ok out ->
  nth_error batch i = Some b ->
  nth_error (Np.ravel (lengths out)) i = Some n ->
  Z.of_nat j < n ->
  exists row v t0 t1,
    nth_error (col ev_t (events b)) j = Some t0 /\
    nth_error (col ev_t (events b)) (S j) = Some t1 /\
    nth_error (timesteps out) i = Some row /\
    nth_error row j = Some v /\
    (v == inject_Z (t1 - t0) / 1000)%Q.
Proof.
  intros H Hb Hn Hj.
  destruct (collate_rows _ _ _ _ _ _ _ H Hb) as (m & _ & _ & _ & Hd & Hl).
  assert (n = len (raw_timesteps false (events b))) by congruence. subst n.
  pose proof Hj as Hj'. unfold len in Hj'.
  rewrite length_raw_timesteps in Hj'.
  assert (Hlen : length (col ev_t (events b)) = length (events b))
    by apply length_map.
  destruct (nth_error (col ev_t (events b)) j) as [t0|] eqn:E0.
  2:{ apply nth_error_None in E0. lia. }
  destruct (nth_error (col ev_t (events b)) (S j)) as [t1|] eqn:E1.
  2:{ apply nth_error_None in E1. lia. }
  eexists. exists (div1000 (t1 - t0)), t0, t1.
  split; [reflexivity|]. split; [reflexivity|]. split; [exact Hd|]. split.
  - unfold len in Hj.
    rewrite nth_error_map, nth_error_pad_row_data by lia.
    unfold raw_timesteps. now rewrite (nth_error_diff _ _ _ _ E0 E1).
  - apply div1000_spec.
Qed.

Lemma C7_time_deltas_witness :
  exists row v t0 t1,
    nth_error (col ev_t sample_a) 1 = Some t0 /\
    nth_error (col ev_t sample_a) 2 = Some t1 /\
    nth_error (timesteps (collate_result batch_ab [128; 128] 4 false 3)) 0
    = Some row /\
    nth_error row 1 = Some v /\
    (v == inject_Z (t1 - t0) / 1000)%Q.
Proof.
  apply (C7_time_deltas batch_ab [128; 128] 4 _ 0%nat (mk_item sample_a 3 []) 3 1%nat);
    [reflexivity | reflexivity | reflexivity | lia].
Defined.

(** ** Claims on errors and on the batch layout *)

Lemma pad_and_stack_Raise {A : Type} (pad_len : Z) (c : A) arrays e :
  pad_and_stack pad_len c arrays = Raise e ->
  e <> resolution_error /\ e <> AssertionError.
Proof.
  unfold pad_and_stack.
  destruct (mapM _ arrays) as [padded|e'] eqn:E; cbn [bind].
  - unfold Np.stack. destruct padded as [|a rest].
    + intros H; injection H as <-. split; discriminate.
    + destruct (forallb _ rest); [discriminate|].
      intros H; injection H as <-. split; discriminate.
  - intros H; injection H as <-.
    revert E; generalize dependent e'.
    induction arrays as [|a arrays IH]; intros e' E; simpl in E; [discriminate|].
    unfold Np.pad in E at 1.
    destruct (_ <? 0) eqn:Hlt; cbn [bind] in E.
    + injection E as <-. split; discriminate.
    + destruct (mapM _ arrays) as [bs|e''] eqn:E'; cbn [bind] in E;
        [discriminate|].
      injection E as <-. now apply IH.
Qed.

(** The exceptions of the routine, in the order in which it can raise them. *)
Lemma collate_Raise_cases batch resolution pad_unit nti e :
  event_stream_collate_fn batch resolution pad_unit nti = Raise e ->
  (batch = [] /\ e <> AssertionError /\ e <> resolution_error) \/
  (batch <> [] /\ Forall (fun b => aux b <> []) batch /\ e = AssertionError) \/
  (Exists (fun b => aux b = []) batch /\
   (length resolution <> 1 /\ length resolution <> 2)%nat /\
   e = resolution_error) \/
  (Exists (fun b => aux b = []) batch /\
   (length resolution = 1 \/ length resolution = 2)%nat /\
   e <> AssertionError /\ e <> resolution_error).
Proof.
  unfold event_stream_collate_fn.
  destruct batch as [|b bs].
  { intros H; injection H as <-. left. repeat split; discriminate. }
  cbn [unpack_batch bind].
  destruct (zip_star (aux b) (map aux bs)) as [|c cs] eqn:Ez.
  2:{ intros H; injection H as <-. right; left.
      split; [discriminate|]. split; [|reflexivity].
      apply Forall_forall. intros b0 Hin Hb0.
      assert (Hnil : zip_star (aux b) (map aux bs) = []); [|congruence].
      apply zip_aux_nil_iff, Exists_exists. eauto. }
  apply zip_aux_nil_iff in Ez.
  change (py_assert (Nat.eqb (@length (list Z) []) 0)) with (Ok tt).
  change (Np.stack_scalars (map label (b :: bs)))
    with (Ok (map label (b :: bs))).
  cbn [bind]. remember (b :: bs) as batch eqn:Eb. clear Eb.
  intros H. right; right.
  assert (Hres : {(length resolution = 1 \/ length resolution = 2)%nat}
                 + {(length resolution <> 1 /\ length resolution <> 2)%nat}).
  { destruct resolution as [|w [|h [|d r]]]; simpl;
      solve [left; lia | right; lia]. }
  destruct Hres as [Hres|Hres].
  - right. split; [assumption|]. split; [assumption|].
    rewrite (proj2 (tokens_branch_Ok_iff resolution (map events batch)
                      (map (sample_tokens resolution) (map events batch)))
               (conj Hres eq_refl)) in H.
    cbn [bind] in H.
    destruct (Np.max _) as [m|e'] eqn:Em; cbn [bind] in H.
    2:{ unfold Np.max in Em. destruct (map len _); [|discriminate].
        injection Em as <-. injection H as <-. split; discriminate. }
    destruct (pad_and_stack _ (-1) _) as [trows|e'] eqn:Et; cbn [bind] in H.
    2:{ apply pad_and_stack_Raise in Et as [? ?].
        injection H as <-. now split. }
    destruct (pad_and_stack _ 0 _) as [drows|e'] eqn:Ed; cbn [bind] in H.
    2:{ apply pad_and_stack_Raise in Ed as [? ?].
        injection H as <-. now split. }
    discriminate.
  - left. split; [assumption|]. split; [assumption|].
    destruct resolution as [|w [|h [|d r]]]; simpl in Hres; try lia;
      cbn [length bind] in H; injection H as <-; reflexivity.
Qed.

(** C8: with a resolution of neither one nor two elements the routine
    returns no result; once the batch has been unpacked and the assertion
    has passed it raises the resolution error, whatever the events and the
    pad unit are.  With one or two elements that error is not raised. *)
Theorem C8_resolution_arity batch resolution pad_unit nti :
  ((length resolution <> 1 /\ length resolution <> 2)%nat ->
   (forall out, event_stream_collate_fn batch resolution pad_unit nti <> Ok out) /\
   (Exists (fun b => aux b = []) batch ->
    event_stream_collate_fn batch resolution pad_unit nti = Raise resolution_error)) /\
  ((length resolution = 1 \/ length resolution = 2)%nat ->
   event_stream_collate_fn batch resolution pad_unit nti <> Raise resolution_error).
Proof.
  split.
  - intros [H1 H2]. split.
    + intros out H. apply collate_Ok_iff in H as (m & (_ & [?|?] & _) & _); lia.
    + intros Hex.
      destruct (event_stream_collate_fn batch resolution pad_unit nti)
        as [out|e] eqn:E.
      * apply collate_Ok_iff in E as (m & (_ & [?|?] & _) & _); lia.
      * apply collate_Raise_cases in E
          as [(-> & _)|[(_ & Hall & _)|[(_ & _ & ->)|(_ & [?|?] & _)]]];
          try lia; try reflexivity.
        -- inversion Hex.
        -- apply Exists_exists in Hex as (b0 & Hin & Hb0).
           rewrite Forall_forall in Hall. now apply Hall in Hin.
  - intros Hres E.
    apply collate_Raise_cases in E
      as [(_ & _ & He)|[(_ & _ & He)|[(_ & [H1 H2] & _)|(_ & _ & _ & He)]]];
      try congruence; try discriminate; lia.
Qed.

Lemma C8_resolution_arity_witness :
  ((forall out, event_stream_collate_fn batch_ab [128; 128; 2] 4 false <> Ok out) /\
   event_stream_collate_fn batch_ab [128; 128; 2] 4 false = Raise resolution_error) /\
  event_stream_collate_fn batch_ab [128; 128] 4 false <> Raise resolution_error.
Proof.
  split.
  - destruct (C8_resolution_arity batch_ab [128; 128; 2] 4 false) as [H _].
    destruct H as [Hno Hraise]; [simpl; lia|].
    split; [exact Hno|]. apply Hraise. left. reflexivity.
  - destruct (C8_resolution_arity batch_ab [128; 128] 4 false) as [_ H].
    apply H. right. reflexivity.
Defined.

(** C9: for a batch of exactly one sample the length vector is returned
    with a leading dimension of size 1 (shape (1, 1)); for any other
    batch size it stays one-dimensional (shape (batch_size,)). *)
Theorem C9_batch_size_one batch resolution pad_unit nti out :
  event_stream_collate_fn batch resolution pad_unit nti = Ok out ->
  (length batch = 1%nat ->
   Np.shape (lengths out) = [1%nat; 1%nat] /\
   exists n, lengths out = Np.Arr2 [[n]]) /\
  (length batch <> 1%nat ->
   Np.shape (lengths out) = [length batch] /\
   exists v, lengths out = Np.Arr1 v).
Proof.
  intros H. apply collate_Ok_iff in H as (m & _ & ->).
  unfold collate_result; cbn [lengths]. split; intros Hlen.
  - destruct batch as [|b [|b' bs]]; try discriminate.
    cbn. split; [reflexivity | eexists; reflexivity].
  - destruct (Nat.eqb_spec (length batch) 1) as [?|_]; [contradiction|].
    unfold sample_lengths. cbn [Np.shape]. rewrite length_map.
    split; [reflexivity | eauto].
Qed.

Lemma C9_batch_size_one_witness :
  (Np.shape (lengths (collate_result batch_c [700] 4 false 4)) = [1%nat; 1%nat] /\
   exists n, lengths (collate_result batch_c [700] 4 false 4) = Np.Arr2 [[n]]) /\
  (Np.shape (lengths (collate_result batch_ab [128; 128] 4 false 3)) = [2%nat] /\
   exists v, lengths (collate_result batch_ab [128; 128] 4 false 3) = Np.Arr1 v).
Proof.
  split.
  - apply (C9_batch_size_one batch_c [700] 4 false); reflexivity.
  - apply (C9_batch_size_one batch_ab [128; 128] 4 false);
      [reflexivity | discriminate].
Defined.

(** C10 (counterexample): the first element of this batch carries a third
    component, the second one is a pair; the assertion does not fire and
    the routine returns the collated batch. *)
Lemma C10_counterexample :
  aux (mk_item sample_a 3 [1]) = [1] /\
  event_stream_collate_fn [mk_item sample_a 3 [1]; mk_item sample_b 7 []]
    [128; 128] 4 false
  = Ok out_ab.
Proof. split; reflexivity. Qed.

(** C10 (amended): on a non-empty batch whose elements all carry a third
    component the assertion fails and nothing is returned; on a batch
    whose elements are all pairs the assertion does not fire, and the
    labels returned are the per-sample labels in batch order. *)
Theorem C10_pairs batch resolution pad_unit nti :
  batch <> [] ->
  (Forall (fun b => aux b <> []) batch ->
   event_stream_collate_fn batch resolution pad_unit nti = Raise AssertionError) /\
  (Forall (fun b => aux b = []) batch ->
   event_stream_collate_fn batch resolution pad_unit nti <> Raise AssertionError /\
   forall out,
     event_stream_collate_fn batch resolution pad_unit nti = Ok out ->
     labels out = map label batch).
Proof.
  intros Hne. split; intros Hall.
  - unfold event_stream_collate_fn.
    destruct batch as [|b bs]; [congruence|]. cbn [unpack_batch bind].
    destruct (zip_star (aux b) (map aux bs)) as [|c cs] eqn:Ez; [|reflexivity].
    apply zip_aux_nil_iff, Exists_exists in Ez as (b0 & Hin & Hb0).
    rewrite Forall_forall in Hall. now apply Hall in Hin.
  - split.
    + intros E.
      apply collate_Raise_cases in E
        as [(_ & He & _)|[(_ & Hall' & _)|[(_ & _ & He)|(_ & _ & He & _)]]];
        try congruence; try discriminate.
      destruct batch as [|b bs]; [congruence|].
      inversion Hall; inversion Hall'; subst. contradiction.
    + intros out H. apply collate_Ok_iff in H as (m & _ & ->). reflexivity.
Qed.

Lemma C10_pairs_witness :
  event_stream_collate_fn
    [mk_item sample_a 3 [1]; mk_item sample_b 7 [2; 5]] [128; 128] 4 false
  = Raise AssertionError /\
  event_stream_collate_fn batch_ab [128; 128] 4 false <> Raise AssertionError /\
  forall out,
    event_stream_collate_fn batch_ab [128; 128] 4 false = Ok out ->
    labels out = [3; 7].
Proof.
  split.
  - apply (C10_pairs [mk_item sample_a 3 [1]; mk_item sample_b 7 [2; 5]]
             [128; 128] 4 false);
      [discriminate | repeat constructor; discriminate].
  - apply (C10_pairs batch_ab [128; 128] 4 false);
      [discriminate | repeat constructor].
Defined.


(** * Further properties of the collation routine *)

(** The routine reads a batch only through its labels, its auxiliary
    components, the raw timesteps and the tokens of its samples. *)
Lemma collate_ext batch batch' resolution pad_unit nti :
  map label batch = map label batch' ->
  map aux batch = map aux batch' ->
  map (fun b => raw_timesteps nti (events b)) batch
  = map (fun b => raw_timesteps nti (events b)) batch' ->
  map (fun b => tokens_1d (events b)) batch
  = map (fun b => tokens_1d (events b)) batch' ->
  map (fun b => tokens_2d resolution (events b)) batch
  = map (fun b => tokens_2d resolution (events b)) batch' ->
  event_stream_collate_fn batch resolution pad_unit nti
  = event_stream_collate_fn batch' resolution pad_unit nti.
Proof.
  intros Hl Ha Hr H1 H2. unfold event_stream_collate_fn.
  destruct batch as [|b bs], batch' as [|b' bs']; try discriminate;
    [reflexivity|].
  cbn [unpack_batch bind].
  assert (Hz : zip_star (aux b) (map aux bs) = zip_star (aux b') (map aux bs')).
  { simpl in Ha. injection Ha as -> ->. reflexivity. }
  assert (Hlen : length (b :: bs) = length (b' :: bs')).
  { rewrite <- (length_map label (b :: bs)), Hl. apply length_map. }
  rewrite Hz, !(map_map events), (length_map events (b :: bs)),
    (length_map events (b' :: bs')), Hl, Hr, H1, H2, Hlen.
  reflexivity.
Qed.

(** The routine past unpacking, the assertion and the resolution test. *)
Lemma collate_unfold batch resolution pad_unit nti :
  Exists (fun b => aux b = []) batch ->
  (length resolution = 1 \/ length resolution = 2)%nat ->
  exists max_len,
    Np.max (sample_lengths nti batch) = Ok max_len /\
    event_stream_collate_fn batch resolution pad_unit nti
    = (toks <- pad_and_stack (pad_length max_len pad_unit) (-1)
                 (map (fun b => sample_tokens resolution (events b)) batch) ;;
       steps <- pad_and_stack (pad_length max_len pad_unit) 0
                  (map (fun b => raw_timesteps nti (events b)) batch) ;;
       Ok (mk_collated toks (map label batch) (map (map div1000) steps)
             (if Nat.eqb (length batch) 1
              then Np.expand_leading (sample_lengths nti batch)
              else Np.Arr1 (sample_lengths nti batch)))).
Proof.
  intros Hex Hres.
  destruct (max_Ok_intro (sample_lengths nti batch)) as [m Hm].
  { destruct batch; [inversion Hex | discriminate]. }
  exists m. split; [assumption|].
  unfold event_stream_collate_fn.
  destruct batch as [|b bs]; [inversion Hex|].
  cbn [unpack_batch bind].
  rewrite (proj2 (zip_aux_nil_iff b bs) Hex).
  change (py_assert (Nat.eqb (@length (list Z) []) 0)) with (Ok tt).
  change (Np.stack_scalars (map label (b :: bs)))
    with (Ok (map label (b :: bs))).
  cbn [bind]. remember (b :: bs) as batch eqn:Eb. clear Eb Hex.
  rewrite (proj2 (tokens_branch_Ok_iff resolution (map events batch)
                    (map (sample_tokens resolution) (map events batch)))
             (conj Hres eq_refl)).
  cbn [bind]. rewrite !map_map, length_map.
  unfold sample_lengths in Hm. rewrite Hm. reflexivity.
Qed.

Lemma mapM_pad_Raise {A : Type} (pad_len : Z) (c : A) (arrays : list (list A)) :
  Exists (fun e => pad_len < len e) arrays ->
  mapM (fun e => Np.pad e (pad_len - len e) c) arrays = Raise pad_error.
Proof.
  induction arrays as [|a arrays IH]; intros H; [inversion H|].
  simpl. unfold Np.pad at 1.
  destruct (Z.ltb_spec (pad_len - len a) 0) as [Hlt|Hge]; [reflexivity|].
  cbn [bind]. inversion H as [? ? Ha|? ? Hrest]; subst; [lia|].
  rewrite IH by assumption. reflexivity.
Qed.

Lemma pad_length_neg_unit (m u : Z) : u < 0 -> pad_length m u < m.
Proof.
  intros Hu. unfold pad_length.
  pose proof (Z.div_mod m u ltac:(lia)).
  pose proof (Z.mod_neg_bound m u Hu). nia.
Qed.





(** X3: on the one-dimensional path the token at a non-padded position
    [j] of a sample is the [x] coordinate of its event [j], cast to 32
    bits; it is that coordinate itself whenever it fits 32 bits. *)
Theorem X3_tokens_1d batch width pad_unit nti out i b j e :
  event_stream_collate_fn batch [width] pad_unit nti = Ok out ->
  nth_error batch i = Some b ->
  nth_error (events b) j = Some e ->
  (S j < length (events b))%nat ->
  exists row,
    nth_error (tokens out) i = Some row /\
    nth_error row j = Some (Np.astype_int32 (ev_x e)) /\
    (- 2 ^ 31 <= ev_x e < 2 ^ 31 -> nth_error row j = Some (ev_x e)).
Proof.
  intros H Hb He Hj.
  destruct (collate_rows _ _ _ _ _ _ _ H Hb) as (m & _ & Ht & _).
  eexists. split; [exact Ht|].
  assert (Hrow : nth_error (pad_row (pad_length m pad_unit) (-1)
                              (sample_tokens [width] (events b))) j
                 = Some (Np.astype_int32 (ev_x e))).
  { rewrite nth_error_pad_row_data by (rewrite length_sample_tokens; lia).
    unfold sample_tokens, tokens_1d, col. cbn [length Nat.eqb].
    rewrite nth_error_map, nth_error_removelast
      by (rewrite length_map; lia).
    now rewrite nth_error_map, He. }
  split; [exact Hrow|].
  intros Hx. now rewrite Hrow, astype_int32_small.
Qed.

Lemma X3_tokens_1d_witness :
  exists row,
    nth_error (tokens out_c) 0 = Some row /\
    nth_error row 2 = Some (Np.astype_int32 7) /\
    (- 2 ^ 31 <= 7 < 2 ^ 31 -> nth_error row 2 = Some 7).
Proof.
  apply (X3_tokens_1d batch_c 700 4 false out_c 0%nat
           (mk_item sample_c 1 []) 2%nat (ev 300 7 0 0));
    [reflexivity | reflexivity | reflexivity | simpl; lia].
Defined.

Lemma token_2d_bounds width height e :
  0 < width -> 0 < height -> 2 * (width * height) <= 2 ^ 31 ->
  in_sensor width height e ->
  token_2d [width; height] e = ev_x e * ev_y e + width * height * ev_p e /\
  0 <= token_2d [width; height] e < 2 * (width * height).
Proof.
  intros Hw Hh Hfit (Hx & Hy & Hp).
  assert (Hxy : 0 <= ev_x e * ev_y e < width * height) by nia.
  assert (Hv : 0 <= ev_x e * ev_y e + width * height * ev_p e
               < 2 * (width * height)) by nia.
  rewrite token_2d_in_range by lia. auto.
Qed.



Lemma In_removelast {A : Type} (a : A) (l : list A) :
  In a (removelast l) -> In a l.
Proof.
  induction l as [|b [|c l] IH]; simpl in *; tauto.
Qed.

(** A row whose data entries are all non-negative holds -1 exactly at its
    padded positions. *)
Lemma pad_row_sentinel (pad_len : Z) (data : list Z) (j : nat) :
  Forall (fun t => 0 <= t) data ->
  len data <= pad_len ->
  Z.of_nat j < pad_len ->
  nth_error (pad_row pad_len (-1) data) j = Some (-1) <-> len data <= Z.of_nat j.
Proof.
  intros Hdata Hle Hj. unfold len in *. split.
  - intros H. destruct (Nat.lt_ge_cases j (length data)) as [Hlt|Hge]; [|lia].
    rewrite nth_error_pad_row_data in H by assumption.
    apply nth_error_In in H. rewrite Forall_forall in Hdata.
    apply Hdata in H. lia.
  - intros Hge. apply nth_error_pad_row_fill. unfold len. lia.
Qed.



Lemma sample_lengths_mode nti nti' batch :
  sample_lengths nti batch = sample_lengths nti' batch.
Proof.
  unfold sample_lengths. apply map_ext. intros b. unfold len.
  now rewrite !length_raw_timesteps.
Qed.

Lemma returns_mode batch resolution pad_unit nti nti' m :
  returns batch resolution pad_unit nti m ->
  returns batch resolution pad_unit nti' m.
Proof.
  intros (Hex & Hres & Hmax & Hall). repeat split; auto.
  - now rewrite (sample_lengths_mode nti' nti).
  - revert Hall. apply Forall_impl. intros b. unfold len.
    now rewrite !length_raw_timesteps.
Qed.

(** X6: the no-time-information flag only affects the values of the
    timestep array.  If the routine returns in one mode it returns in the
    other, with the same tokens, labels and length vector and with
    timestep rows of the same widths. *)
Theorem X6_mode_only_changes_timesteps batch resolution pad_unit nti nti' out :
  event_stream_collate_fn batch resolution pad_unit nti = Ok out ->
  exists out',
    event_stream_collate_fn batch resolution pad_unit nti' = Ok out' /\
    tokens out' = tokens out /\
    labels out' = labels out /\
    lengths out' = lengths out /\
    map (@length Q) (timesteps out') = map (@length Q) (timesteps out).
Proof.
  intros H. apply collate_Ok_iff in H as (m & Hret & ->).
  exists (collate_result batch resolution pad_unit nti' m). split.
  - apply collate_Ok_iff. exists m. split; [|reflexivity].
    now apply (returns_mode _ _ _ nti).
  - unfold collate_result; cbn [tokens labels lengths timesteps].
    rewrite (sample_lengths_mode nti' nti). repeat split.
    rewrite !map_map. apply map_ext. intros b.
    unfold pad_row, len.
    now rewrite !length_map, !length_app, !repeat_length, !length_raw_timesteps.
Qed.

Lemma X6_mode_only_changes_timesteps_witness :
  exists out',
    event_stream_collate_fn batch_ab [128; 128] 4 true = Ok out' /\
    tokens out' = tokens out_ab /\
    labels out' = labels out_ab /\
    lengths out' = lengths out_ab /\
    map (@length Q) (timesteps out') = map (@length Q) (timesteps out_ab).
Proof.
  apply (X6_mode_only_changes_timesteps batch_ab [128; 128] 4 false true out_ab).
  reflexivity.
Defined.

Lemma removelast_map {A B : Type} (f : A -> B) (l : list A) :
  removelast (map f l) = map f (removelast l).
Proof.
  induction l as [|a [|b l] IH]; simpl in *; try reflexivity.
  now rewrite IH.
Qed.

Lemma diff_shift (c : Z) (a : list Z) :
  Np.diff (map (fun t => t + c) a) = Np.diff a.
Proof.
  induction a as [|a0 [|a1 a] IH]; try reflexivity.
  change (Np.diff (map (fun t => t + c) (a0 :: a1 :: a)))
    with ((a1 + c - (a0 + c)) :: Np.diff (map (fun t => t + c) (a1 :: a))).
  rewrite IH. simpl. f_equal. lia.
Qed.

(** X7: the routine only looks at differences of timestamps.  Delaying
    all events of a sample by a constant (its own for every batch element)
    changes nothing in the result, whether a batch or an exception. *)
Theorem X7_time_shift_invariant (c : item -> Z) batch resolution pad_unit nti :
  event_stream_collate_fn (map (fun b => shift_time (c b) b) batch)
    resolution pad_unit nti
  = event_stream_collate_fn batch resolution pad_unit nti.
Proof.
  apply collate_ext; rewrite map_map; apply map_ext; intros b;
    unfold shift_time; cbn [events label aux]; try reflexivity.
  - unfold raw_timesteps, Np.ones_like, col. rewrite map_map.
    cbn [ev_t]. destruct nti.
    + rewrite !removelast_map, !map_map. reflexivity.
    + rewrite <- (map_map ev_t (fun t => t + c b)). apply diff_shift.
  - unfold tokens_1d, col. rewrite map_map. reflexivity.
  - unfold tokens_2d. rewrite removelast_map, map_map. reflexivity.
Qed.

Lemma diff_sorted_nonneg (a : list Z) :
  Sorted Z.le a -> Forall (fun d => 0 <= d) (Np.diff a).
Proof.
  induction 1 as [|a0 a Hs IH Hhd]; [constructor|].
  destruct a as [|a1 a]; [constructor|].
  change (Np.diff (a0 :: a1 :: a)) with ((a1 - a0) :: Np.diff (a1 :: a)).
  constructor; [|assumption]. inversion Hhd; subst. lia.
Qed.

(** X8: when the timestamps of a sample do not decrease, no timestep of
    its row is negative, in either mode. *)
Theorem X8_sorted_timestamps batch resolution pad_unit nti out i b row :
  event_stream_collate_fn batch resolution pad_unit nti = Ok out ->
  nth_error batch i = Some b ->
  Sorted Z.le (col ev_t (events b)) ->
  nth_error (timesteps out) i = Some row ->
  Forall (fun v => 0 <= v)%Q row.
Proof.
  intros H Hb Hs Hrow.
  destruct (collate_rows _ _ _ _ _ _ _ H Hb) as (m & _ & _ & _ & Hd & _).
  rewrite Hrow in Hd. injection Hd as ->.
  rewrite Forall_map. unfold pad_row. apply Forall_app. split.
  - assert (Hraw : Forall (fun d => 0 <= d) (raw_timesteps nti (events b))).
    { unfold raw_timesteps, Np.ones_like. destruct nti.
      - rewrite Forall_map. apply Forall_forall. intros; lia.
      - now apply diff_sorted_nonneg. }
    revert Hraw. apply Forall_impl. intros d Hd.
    unfold div1000, Qle. simpl. lia.
  - apply Forall_forall. intros d Hd. apply repeat_spec in Hd. subst.
    unfold div1000, Qle. simpl. lia.
Qed.

Lemma X8_sorted_timestamps_witness :
  Forall (fun v => 0 <= v)%Q
    [1500 # 1000; 2500 # 1000; 250 # 1000; 0 # 1000].
Proof.
  apply (X8_sorted_timestamps batch_ab [128; 128] 4 false out_ab 0%nat
           (mk_item sample_a 3 [])); try reflexivity.
  repeat constructor; simpl; lia.
Defined.

Lemma zsum_diff (a : list Z) : zsum (Np.diff a) = last a 0 - hd 0 a.
Proof.
  induction a as [|a0 [|a1 a] IH]; try (simpl; lia).
  change (Np.diff (a0 :: a1 :: a)) with ((a1 - a0) :: Np.diff (a1 :: a)).
  change (last (a0 :: a1 :: a) 0) with (last (a1 :: a) 0).
  unfold zsum in *. cbn [fold_right hd] in *. lia.
Qed.

Lemma zsum_pad (a : list Z) (n : nat) : zsum (a ++ repeat 0 n) = zsum a.
Proof.
  unfold zsum. rewrite fold_right_app.
  replace (fold_right Z.add 0 (repeat 0 n)) with 0; [reflexivity|].
  induction n; simpl; lia.
Qed.

Lemma qsum_div1000 (l : list Z) : (qsum (map div1000 l) == div1000 (zsum l))%Q.
Proof.
  induction l as [|a l IH]; [reflexivity|].
  unfold qsum, zsum in *. cbn [map fold_right]. rewrite IH.
  unfold div1000, Qeq, Qplus. simpl. lia.
Qed.



(** The common width of the returned rows and the returned lengths. *)
Lemma collate_widths batch resolution pad_unit nti out :
  event_stream_collate_fn batch resolution pad_unit nti = Ok out ->
  exists max_len,
    In max_len (Np.ravel (lengths out)) /\
    Forall (fun n => n <= max_len) (Np.ravel (lengths out)) /\
    Forall (fun row => len row = pad_length max_len pad_unit) (tokens out) /\
    Forall (fun row => len row = pad_length max_len pad_unit) (timesteps out).
Proof.
  intros H. apply collate_Ok_iff in H as (m & Hret & ->).
  destruct (returns_lengths_le _ _ _ _ _ Hret) as [Hle HmP].
  pose proof Hret as (_ & _ & Hmax & Hall).
  apply max_Ok_inv in Hmax as (_ & Hin & _).
  assert (Hm : 0 <= m).
  { unfold sample_lengths in Hin. apply in_map_iff in Hin as (b & <- & _).
    apply len_nonneg. }
  exists m. unfold collate_result; cbn [tokens timesteps lengths].
  assert (Hrav : Np.ravel (if Nat.eqb (length batch) 1
                           then Np.expand_leading (sample_lengths nti batch)
                           else Np.Arr1 (sample_lengths nti batch))
                 = sample_lengths nti batch).
  { destruct (Nat.eqb _ _); cbn [Np.ravel Np.expand_leading concat];
      now rewrite ?app_nil_r. }
  rewrite Hrav. repeat split; auto.
  - rewrite Forall_map. revert Hall. apply Forall_impl. intros b Hb.
    unfold len at 1. rewrite length_pad_row; [lia|].
    now rewrite (len_sample_tokens resolution nti).
  - rewrite Forall_map. revert Hall. apply Forall_impl. intros b Hb.
    unfold len at 1. rewrite length_map, length_pad_row; [lia|assumption].
Qed.

(** X10: for a positive pad unit every returned row is strictly wider
    than its sample is long, so that it ends in at least one padded
    position, and the rows are at most one pad unit wider than the
    longest sample. *)
Theorem X10_padding_overhead batch resolution pad_unit nti out :
  0 < pad_unit ->
  event_stream_collate_fn batch resolution pad_unit nti = Ok out ->
  exists width max_len,
    Forall (fun row => len row = width) (tokens out) /\
    Forall (fun row => len row = width) (timesteps out) /\
    Forall (fun n => n < width) (Np.ravel (lengths out)) /\
    In max_len (Np.ravel (lengths out)) /\
    width <= max_len + pad_unit.
Proof.
  intros Hpos H.
  destruct (collate_widths batch resolution pad_unit nti out H)
    as (m & Hin & Hle & Ht & Hd).
  exists (pad_length m pad_unit), m.
  pose proof (pad_length_gt m pad_unit Hpos).
  pose proof (pad_length_le m pad_unit Hpos).
  repeat split; auto.
  revert Hle. apply Forall_impl. intros; lia.
Qed.

Lemma X10_padding_overhead_witness :
  exists width max_len,
    Forall (fun row => len row = width) (tokens out_c) /\
    Forall (fun row => len row = width) (timesteps out_c) /\
    Forall (fun n => n < width) (Np.ravel (lengths out_c)) /\
    In max_len (Np.ravel (lengths out_c)) /\
    width <= max_len + 4.
Proof.
  apply (X10_padding_overhead batch_c [700] 4 false out_c); [lia | reflexivity].
Defined.

Lemma max_Ok_iff (a : list Z) (m : Z) :
  Np.max a = Ok m <-> In m a /\ Forall (fun v => v <= m) a.
Proof.
  split.
  - intros H. now apply max_Ok_inv in H.
  - intros [Hin Hle]. destruct (max_Ok_intro a) as [m' Hm'].
    { destruct a; [inversion Hin | discriminate]. }
    pose proof Hm' as H. apply max_Ok_inv in H as (_ & Hin' & Hle').
    rewrite Forall_forall in Hle, Hle'.
    apply Hle in Hin'. apply Hle' in Hin.
    replace m with m' by lia. assumption.
Qed.

Lemma returns_Permutation batch batch' resolution pad_unit nti m :
  Permutation batch batch' ->
  returns batch resolution pad_unit nti m ->
  returns batch' resolution pad_unit nti m.
Proof.
  intros Hp (Hex & Hres & Hmax & Hall). repeat split; auto.
  - apply Exists_exists in Hex as (b & Hin & Hb). apply Exists_exists.
    exists b. split; [now apply (Permutation_in _ Hp) | assumption].
  - apply max_Ok_iff in Hmax as [Hin Hle]. apply max_Ok_iff.
    assert (Hp' : Permutation (sample_lengths nti batch)
                              (sample_lengths nti batch'))
      by now apply Permutation_map.
    split; [now apply (Permutation_in _ Hp')|].
    now apply (Permutation_Forall Hp').
  - now apply (Permutation_Forall Hp).
Qed.

(** X11: the order of the samples in a batch does not matter.  If the
    routine returns on a batch it returns on every rearrangement of it,
    and a sample keeps its token row, its timestep row, its label and its
    length wherever it stands. *)
Theorem X11_batch_order batch batch' resolution pad_unit nti out :
  Permutation batch batch' ->
  event_stream_collate_fn batch resolution pad_unit nti = Ok out ->
  exists out',
    event_stream_collate_fn batch' resolution pad_unit nti = Ok out' /\
    forall b i i',
      nth_error batch i = Some b -> nth_error batch' i' = Some b ->
      nth_error (tokens out') i' = nth_error (tokens out) i /\
      nth_error (timesteps out') i' = nth_error (timesteps out) i /\
      nth_error (labels out') i' = nth_error (labels out) i /\
      nth_error (Np.ravel (lengths out')) i'
      = nth_error (Np.ravel (lengths out)) i.
Proof.
  intros Hp H. pose proof H as H0.
  apply collate_Ok_iff in H as (m & Hret & Hout).
  pose proof (returns_Permutation _ _ _ _ _ _ Hp Hret) as Hret'.
  exists (collate_result batch' resolution pad_unit nti m).
  assert (H' : event_stream_collate_fn batch' resolution pad_unit nti
               = Ok (collate_result batch' resolution pad_unit nti m)).
  { apply collate_Ok_iff. eauto. }
  split; [assumption|]. intros b i i' Hb Hb'.
  destruct (collate_rows _ _ _ _ _ _ _ H0 Hb)
    as (m1 & Hr1 & Ht1 & Hl1 & Hd1 & Hn1).
  destruct (collate_rows _ _ _ _ _ _ _ H' Hb')
    as (m2 & Hr2 & Ht2 & Hl2 & Hd2 & Hn2).
  assert (m1 = m).
  { destruct Hr1 as (_ & _ & E1 & _), Hret as (_ & _ & E & _). congruence. }
  assert (m2 = m).
  { destruct Hr2 as (_ & _ & E2 & _), Hret' as (_ & _ & E & _). congruence. }
  subst m1 m2. rewrite Ht1, Ht2, Hl1, Hl2, Hd1, Hd2, Hn1, Hn2. auto.
Qed.

Lemma X11_batch_order_witness :
  exists out',
    event_stream_collate_fn [mk_item sample_b 7 []; mk_item sample_a 3 []]
      [128; 128] 4 false = Ok out' /\
    forall b i i',
      nth_error batch_ab i = Some b ->
      nth_error [mk_item sample_b 7 []; mk_item sample_a 3 []] i' = Some b ->
      nth_error (tokens out') i' = nth_error (tokens out_ab) i /\
      nth_error (timesteps out') i' = nth_error (timesteps out_ab) i /\
      nth_error (labels out') i' = nth_error (labels out_ab) i /\
      nth_error (Np.ravel (lengths out')) i'
      = nth_error (Np.ravel (lengths out_ab)) i.
Proof.
  apply (X11_batch_order batch_ab _ [128; 128] 4 false out_ab);
    [apply perm_swap | reflexivity].
Defined.


(** * The dataset constructors *)

Lemma collate_no_resolution_error batch resolution pad_unit nti :
  (length resolution = 1 \/ length resolution = 2)%nat ->
  event_stream_collate_fn batch resolution pad_unit nti <> Raise resolution_error.
Proof.
  intros Hres E.
  apply collate_Raise_cases in E
    as [(_ & _ & He)|[(_ & _ & He)|[(_ & [H1 H2] & _)|(_ & _ & _ & He)]]];
    try congruence; try discriminate; lia.
Qed.

Section AudioDatasets.
Import Datasets.
Variables (cache_dir : string) (per_device_eval_batch_size world_size nw : Z)
  (seed : option Z) (pad_unit : Z) (nti : bool).

(** X12: the collation function that the two audio constructors (spiking
    digits and spiking speech commands) hand to their loader produces, for
    every event whose channel [x] lies in [0, 700), that channel as token:
    a valid index into the embedding table of [num_embeddings] rows that
    the constructor declares next to the loader. *)
Theorem X12_audio_tokens_in_table (ssc : bool) batch out i b j e :
  let (test_loader, data) :=
    if ssc
    then create_events_ssc_classification_dataset cache_dir
           per_device_eval_batch_size world_size nw seed pad_unit nti
    else create_events_shd_classification_dataset cache_dir
           per_device_eval_batch_size world_size nw seed pad_unit nti in
  collate_fn test_loader batch = Ok out ->
  nth_error batch i = Some b ->
  nth_error (events b) j = Some e ->
  (S j < length (events b))%nat ->
  0 <= ev_x e < 700 ->
  exists row,
    nth_error (tokens out) i = Some row /\
    nth_error row j = Some (ev_x e) /\
    0 <= ev_x e < num_embeddings data.
Proof.
  destruct ssc; cbn; intros H Hb He Hj Hx;
    destruct (collate_rows _ _ _ _ _ _ _ H Hb) as (m & _ & Ht & _);
    (eexists; split; [exact Ht|]; split; [|assumption]);
    rewrite nth_error_pad_row_data by (rewrite length_sample_tokens; lia);
    unfold sample_tokens, tokens_1d, col; cbn [length Nat.eqb];
    rewrite nth_error_map, nth_error_removelast by (rewrite length_map; lia);
    rewrite nth_error_map, He; cbn [option_map];
    rewrite astype_int32_small by lia; reflexivity.
Qed.

End AudioDatasets.

Lemma X12_audio_tokens_in_table_witness :
  exists row,
    nth_error (tokens out_c) 0 = Some row /\
    nth_error row 1 = Some 8 /\
    0 <= 8 < 700.
Proof.
  apply (X12_audio_tokens_in_table "cache"%string 1 1 0 (Some 42) 4 false
           false batch_c out_c 0%nat (mk_item sample_c 1 []) 1%nat
           (ev 100 8 0 0));
    try reflexivity; simpl; lia.
Defined.

Section GestureDataset.
Import Datasets.
Variables (cache_dir : string) (per_device_eval_batch_size world_size nw : Z)
  (seed : option Z) (pad_unit : Z).


End GestureDataset.



(** * Chunked online inference *)

Lemma ceil_div_unique (a k c : Z) :
  0 < k -> a <= c * k < a + k -> ceil_div a k = c.
Proof.
  intros Hk Hc. pose proof (ceil_div_bounds a k Hk).
  assert (ceil_div a k <= c) by (apply (multiples_apart k); lia).
  assert (c <= ceil_div a k) by (apply (multiples_apart k); lia).
  lia.
Qed.

Lemma ceil_div_nonpos (a k : Z) : 0 < k -> a <= 0 -> ceil_div a k <= 0.
Proof.
  intros Hk Ha. pose proof (ceil_div_bounds a k Hk). nia.
Qed.

Lemma ceil_div_step (a k : Z) :
  0 < k -> 0 < a -> ceil_div a k = 1 + ceil_div (a - k) k /\ 0 <= ceil_div (a - k) k.
Proof.
  intros Hk Ha. pose proof (ceil_div_bounds (a - k) k Hk). split.
  - apply ceil_div_unique; [assumption|]. lia.
  - nia.
Qed.

Lemma ceil_div_floor (n k : Z) :
  0 < k ->
  (n mod k = 0 -> ceil_div n k = n / k) /\
  (n mod k <> 0 -> ceil_div n k = n / k + 1).
Proof.
  intros Hk. pose proof (Z.div_mod n k ltac:(lia)).
  pose proof (Z.mod_pos_bound n k Hk).
  split; intros Hr; apply ceil_div_unique; auto; lia.
Qed.

Section RangeLemmas.
Import Online.

(** The indices of the loop in closed form. *)
Lemma range_up_closed (k stop : Z) (fuel : nat) (i : Z) :
  0 < k -> stop - i <= Z.of_nat fuel ->
  range_up fuel i stop k
  = map (fun r => i + Z.of_nat r * k) (seq 0 (Z.to_nat (ceil_div (stop - i) k))).
Proof.
  intros Hk. revert i. induction fuel as [|fuel IH]; intros i Hf.
  - pose proof (ceil_div_nonpos (stop - i) k Hk ltac:(lia)).
    replace (Z.to_nat _) with 0%nat by lia. reflexivity.
  - cbn [range_up]. destruct (Z.ltb_spec i stop) as [Hlt|Hge].
    + destruct (ceil_div_step (stop - i) k Hk ltac:(lia)) as [Hc Hc0].
      rewrite Hc. replace (stop - i - k) with (stop - (i + k)) in * by lia.
      replace (Z.to_nat (1 + ceil_div (stop - (i + k)) k))
        with (S (Z.to_nat (ceil_div (stop - (i + k)) k))) by lia.
      rewrite IH by lia. cbn [seq map]. f_equal; [lia|].
      rewrite <- seq_shift, map_map. apply map_ext. intros r. lia.
    + pose proof (ceil_div_nonpos (stop - i) k Hk ltac:(lia)).
      replace (Z.to_nat _) with 0%nat by lia. reflexivity.
Qed.

Lemma py_range_closed (n k : Z) :
  0 < k ->
  py_range 0 n k
  = Some (map (fun r => Z.of_nat r * k) (seq 0 (Z.to_nat (ceil_div n k)))).
Proof.
  intros Hk. unfold py_range.
  destruct (Z.eqb_spec k 0); [lia|]. destruct (Z.ltb_spec 0 k); [|lia].
  rewrite range_up_closed by lia. now rewrite Z.sub_0_r.
Qed.

Lemma length_slice {A : Type} (a : list A) (i k : Z) :
  0 <= i -> 0 <= k ->
  len (slice a i (i + k)) = Z.max 0 (Z.min k (len a - i)).
Proof.
  intros Hi Hk. unfold slice, len.
  rewrite length_firstn, length_skipn. lia.
Qed.

Lemma concat_slices {A : Type} (a : list A) (k : Z) (fuel : nat) (i : Z) :
  0 < k -> 0 <= i -> len a - i <= Z.of_nat fuel ->
  concat (map (fun i => slice a i (i + k)) (range_up fuel i (len a) k))
  = skipn (Z.to_nat i) a.
Proof.
  intros Hk. revert i. induction fuel as [|fuel IH]; intros i Hi Hf.
  - cbn. symmetry. apply skipn_all2. unfold len in Hf. lia.
  - cbn [range_up]. destruct (Z.ltb_spec i (len a)) as [Hlt|Hge].
    + cbn [map concat]. rewrite IH by lia. unfold slice.
      replace (Z.to_nat (i + k - i)) with (Z.to_nat k) by lia.
      replace (Z.to_nat (i + k)) with (Z.to_nat k + Z.to_nat i)%nat by lia.
      rewrite <- skipn_skipn. apply firstn_skipn.
    + cbn. symmetry. apply skipn_all2. unfold len in Hge. lia.
Qed.

End RangeLemmas.

Section OnlineInference.
Import Online.
Context {T logits : Type}.
Variable apply : list Z -> list T -> logits.



(** X15: for a positive chunk size the loop runs
    [ceil(sequence_length / total_subsampling)] times.  The count
    [sequence_length // total_subsampling] that is printed before the loop
    is the number of iterations exactly when the chunk size divides the
    sequence length. *)
Theorem X15_iteration_count (tokens : list Z) (timesteps : list T) (n k : Z) :
  0 < k ->
  exists outs,
    inference_loop apply tokens timesteps n k = Some outs /\
    len outs = Z.max 0 (ceil_div n k) /\
    (0 <= n -> (len outs = n / k <-> n mod k = 0)).
Proof.
  intros Hk. unfold inference_loop. rewrite py_range_closed by assumption.
  eexists. split; [reflexivity|].
  unfold len. rewrite !length_map, length_seq.
  split; [lia|]. intros Hn.
  destruct (ceil_div_floor n k Hk) as [H0 H1].
  pose proof (Z.div_pos n k Hn Hk).
  destruct (Z.eq_dec (n mod k) 0) as [E|E].
  - rewrite (H0 E). split; [auto | lia].
  - rewrite (H1 E). split; [lia | contradiction].
Qed.

Lemma scan_fold (rows : list (list Z * list T)) (acc : list logits) :
  fold_left
    (fun acc inputs =>
       let '(carry, ys) := acc in
       let '(carry', y) := step apply carry inputs in
       (carry', ys ++ [y]))
    rows (tt, acc)
  = (tt, acc ++ map (fun xt => apply (fst xt) (snd xt)) rows).
Proof.
  revert acc. induction rows as [|[x t] rows IH]; intros acc; cbn.
  - now rewrite app_nil_r.
  - rewrite IH, <- app_assoc. reflexivity.
Qed.

(** X16: when the chunk size is positive and divides the common length
    of the token and the timestep array, reshaping both to rows of that
    size and scanning the model over the rows computes the very logits of
    the loop, in the same order. *)
Theorem X16_scan_agrees_with_loop (tokens : list Z) (timesteps : list T)
  (n k : Z) :
  0 < k -> len tokens = n -> len timesteps = n -> n mod k = 0 ->
  exists outs,
    inference_loop apply tokens timesteps n k = Some outs /\
    inference_scan apply tokens timesteps k = Some (tt, outs).
Proof.
  intros Hk Hx Ht Hdiv.
  unfold inference_loop, inference_scan, reshape_rows, scan.
  rewrite py_range_closed by assumption.
  destruct (ceil_div_floor n k Hk) as [H0 _]. rewrite (H0 Hdiv).
  rewrite Hx, Ht, Hdiv.
  destruct (Z.leb_spec k 0); [lia|]. cbn [Z.eqb option_map].
  eexists. split; [reflexivity|].
  rewrite !length_map, Nat.eqb_refl, scan_fold. cbn [app].
  f_equal. f_equal.
  rewrite map_map.
  set (rows := seq 0 (Z.to_nat (n / k))). clearbody rows.
  induction rows as [|r rows IH]; [reflexivity|].
  cbn [map combine fst snd]. now rewrite IH.
Qed.


End OnlineInference.

Lemma X15_iteration_count_witness :
  exists outs,
    Online.inference_loop (fun x t => (x, t)) [5; 6; 7; 8; 9] [1; 1; 1; 1; 1] 5 2
    = Some outs /\
    len outs = Z.max 0 (ceil_div 5 2) /\
    (0 <= 5 -> (len outs = 5 / 2 <-> 5 mod 2 = 0)).
Proof.
  apply (X15_iteration_count (fun x t => (x, t)) [5; 6; 7; 8; 9]
           [1; 1; 1; 1; 1] 5 2).
  lia.
Defined.

Lemma X16_scan_agrees_with_loop_witness :
  exists outs,
    Online.inference_loop (fun x t => (x, t)) [5; 6; 7; 8] [1; 1; 1; 1] 4 2
    = Some outs /\
    Online.inference_scan (fun x t => (x, t)) [5; 6; 7; 8] [1; 1; 1; 1] 2
    = Some (tt, outs).
Proof.
  apply (X16_scan_agrees_with_loop (fun x t => (x, t)) [5; 6; 7; 8]
           [1; 1; 1; 1] 4 2);
    try reflexivity; lia.
Defined.



